(** * go-zfs: the output parsing engine of the ZFS command wrapper

    A shallow embedding of the parsing half of package [zfs]: the
    post-processing of captured command output in [command.Run], the
    tabular mappers [Dataset.parseLine] and [Zpool.parseLine], the
    [zfs diff] grammar ([unescapeFilepath], [parseReferenceCount],
    [parseInodeChange], [parseInodeChanges]) and the property encoder
    [propsSlice].

    Go strings are byte sequences; they are modelled by [string], whose
    characters ([ascii]) are the 256 byte values.  A Go function returning
    [(T, error)] is modelled by a function into [result error T]; a run-time
    panic (index or slice bound out of range) is the third outcome [Panic]. *)

From Stdlib Require Import ZArith NArith Ascii String List Lia Bool.
From Stdlib Require Import DecimalString FunctionalExtensionality.
From stdpp Require Import base option list strings gmap functions.
From Equations Require Import Equations.

Local Open Scope string_scope.

(** ** Outcomes *)

Inductive result (E A : Type) : Type :=
| Ok (a : A)
| Err (e : E)
| Panic.
Arguments Ok {E A} a.
Arguments Err {E A} e.
Arguments Panic {E A}.

Definition rbind {E A B} (r : result E A) (k : A -> result E B) : result E B :=
  match r with
  | Ok a => k a
  | Err e => Err e
  | Panic => Panic
  end.

Definition rmap {E A B} (f : A -> B) (r : result E A) : result E B :=
  rbind r (fun a => Ok (f a)).

Notation "'let!' x ':=' r 'in' k" := (rbind r (fun x => k))
  (at level 10, x name, r at level 100, k at level 200, only parsing).

(** ** Errors

    The package builds its errors with [fmt.Errorf]; each constructor is one
    format string of the source, its arguments being the values formatted
    into it. *)

Inductive NumErrKind : Type := ErrSyntax | ErrRange.

(** [strconv.NumError]: the failing function, the input text, the cause. *)
Record NumError : Type := mkNumError {
  Func : string;
  Num : string;
  Cause : NumErrKind
}.

Inductive error : Type :=
| OctalTooShort                         (* "Invalid octal code: too short" *)
| OctalInvalid (e : NumError)           (* "Invalid octal code: %v" *)
| RegexpNoMatch                         (* "Regexp does not match" *)
| AtoiFailed (e : NumError)             (* the error of strconv.Atoi *)
| EmptyLine                             (* "Empty line passed" *)
| UnknownChangeType (code : string)     (* "Unknown change type '%s'" *)
| MismatchFields (expect : string) (got : nat)
                      (* "Mismatching number of fields: expect .., got: %d" *)
| UnknownInodeType (code : string)      (* "Unknown inode type '%s'" *)
| FailedFilename (e : error)            (* "Failed to parse filename: %v" *)
| FailedReferenceCount (e : error)      (* "Failed to parse reference count: %v" *)
| FailedLine (i : nat) (e : error) (line : list string)
          (* "Failed to parse line %d of zfs diff: %v, got: '%s'" *)
| OutputMismatch (what : string).
          (* "ZFS output does not match ..."/"Zpool output not what ..." *)

(** ** The pieces of package [strconv] the parser calls *)

Module strconv.

Definition maxUint64 : N := 2 ^ 64 - 1.

(** Word size of Go's [int] on the platform the package is built for. *)
Inductive WordSize : Type := W32 | W64.

Definition IntSize (w : WordSize) : N :=
  match w with W32 => 32 | W64 => 64 end.

(** [lower(c)]: [c | ('x' - 'X')]. *)
Definition lower (c : N) : N := N.lor c 32.

(** The digit a byte stands for, letters counting from 10. *)
Definition digitVal (c : ascii) : option N :=
  let n := N_of_ascii c in
  if (48 <=? n)%N && (n <=? 57)%N then Some (n - 48)%N
  else if (97 <=? lower n)%N && (lower n <=? 122)%N
       then Some (lower n - 97 + 10)%N
       else None.

(** The digit loop of [ParseUint]; [n] is the [uint64] accumulator. *)
Fixpoint parseDigits (base cutoff maxVal : N) (s : string) (n : N)
  : NumErrKind + N :=
  match s with
  | EmptyString => inr n
  | String c s' =>
      match digitVal c with
      | None => inl ErrSyntax
      | Some d =>
          if (base <=? d)%N then inl ErrSyntax
          else if (cutoff <=? n)%N then inl ErrRange
          else
            let n' := ((n * base) mod 2 ^ 64)%N in
            let n1 := ((n' + d) mod 2 ^ 64)%N in
            if (n1 <? n')%N || (maxVal <? n1)%N then inl ErrRange
            else parseDigits base cutoff maxVal s' n1
      end
  end.

(** [ParseUint(s, base, bitSize)] for an explicit base in 2..36 and a bit
    size in 1..64, the only way the package calls it. *)
Definition ParseUint (s : string) (base bitSize : N) : NumError + N :=
  match s with
  | EmptyString => inl (mkNumError "ParseUint" s ErrSyntax)
  | _ =>
      let cutoff := (maxUint64 / base + 1)%N in
      let maxVal := ((2 ^ bitSize - 1) mod 2 ^ 64)%N in
      match parseDigits base cutoff maxVal s 0 with
      | inl k => inl (mkNumError "ParseUint" s k)
      | inr n => inr n
      end
  end.

(** [ParseInt(s, 10, 0)]: an optional sign, then [ParseUint] on the rest
    with the platform's word size, then the signed range check. *)
Definition ParseInt10 (w : WordSize) (fn : string) (s0 : string)
  : NumError + Z :=
  match s0 with
  | EmptyString => inl (mkNumError fn s0 ErrSyntax)
  | String c rest =>
      let neg := bool_decide (c = "-"%char) in
      let s := if bool_decide (c = "+"%char) || neg then rest else s0 in
      let cutoff := (2 ^ (IntSize w - 1))%N in
      match ParseUint s 10 (IntSize w) with
      | inl e =>
          match Cause e with
          | ErrSyntax => inl (mkNumError fn s0 ErrSyntax)
          | ErrRange => inl (mkNumError fn s0 ErrRange)
          end
      | inr un =>
          if negb neg && (cutoff <=? un)%N then inl (mkNumError fn s0 ErrRange)
          else if neg && (cutoff <? un)%N then inl (mkNumError fn s0 ErrRange)
          else inr (if neg then (- Z.of_N un)%Z else Z.of_N un)
      end
  end.

(** [Atoi(s)] is [ParseInt(s, 10, 0)] with the error renamed; its fast
    path for short inputs computes the same value. *)
Definition Atoi (w : WordSize) (s : string) : NumError + Z :=
  ParseInt10 w "Atoi" s.

End strconv.

(** ** Octal-escaped paths *)

(** [byte(val)]: the low eight bits. *)
Definition byte_of (val : N) : ascii := ascii_of_N (val mod 256).

(** [append(buf, b)]. *)
Definition push (buf : string) (b : ascii) : string := buf ++ String b "".

(** The loop of [unescapeFilepath], from index [i] with [buf] built so far. *)
Equations unescape_loop (path : string) (i : nat) (buf : string)
  : result error string by wf (String.length path - i) lt :=
unescape_loop path i buf with decide (i < String.length path) := {
  | right _ => Ok buf
  | left _ with String.get i path := {
      | None => Panic
      | Some c with decide (c = "\"%char) := {
          | left _ with decide (String.length path < i + 5) := {
              | left _ => Err OctalTooShort
              | right _ with strconv.ParseUint (substring (i + 1) 4 path) 8 8 := {
                  | inl e => Err (OctalInvalid e)
                  | inr val => unescape_loop path (i + 5) (push buf (byte_of val)) } }
          | right _ => unescape_loop path (i + 1) (push buf c) } } }.
Next Obligation. lia. Qed.
Next Obligation. lia. Qed.

Definition unescapeFilepath (path : string) : result error string :=
  unescape_loop path 0 "".

(** ** The [zfs diff] grammar *)

(** [InodeType] and [ChangeType] are Go integers whose zero value means
    "unknown"; the zero value is the first constructor. *)
Inductive InodeType : Type :=
| UnknownInode
| BlockDevice | CharacterDevice | Directory | Door | NamedPipe
| SymbolicLink | EventPort | Socket | File.

Inductive ChangeType : Type :=
| UnknownChange
| Removed | Created | Modified | Renamed.

#[global] Instance InodeType_eq_dec : EqDecision InodeType.
Proof. solve_decision. Defined.
#[global] Instance ChangeType_eq_dec : EqDecision ChangeType.
Proof. solve_decision. Defined.

Record InodeChange : Type := mkInodeChange {
  Change : ChangeType;
  IType : InodeType;                 (* field [Type] *)
  Path : string;
  NewPath : string;
  ReferenceCountChange : Z
}.

Definition changeTypeMap : gmap string ChangeType :=
  <["-" := Removed]> (<["+" := Created]> (<["M" := Modified]>
  (<["R" := Renamed]> ∅))).

Definition inodeTypeMap : gmap string InodeType :=
  <["B" := BlockDevice]> (<["C" := CharacterDevice]> (<["/" := Directory]>
  (<[">" := Door]> (<["|" := NamedPipe]> (<["@" := SymbolicLink]>
  (<["P" := EventPort]> (<["=" := Socket]> (<["F" := File]> ∅)))))))).

(** [m[key]] on a Go map: the zero value when the key is absent. *)
Definition lookup0 {V} (zero : V) (m : gmap string V) (key : string) : V :=
  default zero (m !! key).

(** [line[i]]: panics out of range. *)
Definition index {E A} (line : list A) (i : nat) : result E A :=
  match line !! i with
  | Some x => Ok x
  | None => Panic
  end.

(** *** The reference-count annotation

    [referenceCountRegex] is [\(([+-]\d+?)\)]: an opening parenthesis, a
    group made of a sign and at least one digit, a closing parenthesis.
    [\d] is an ASCII digit; the lazy [+?] changes nothing since the digits
    must run up to the parenthesis. *)

Definition isDigit (c : ascii) : bool :=
  let n := N_of_ascii c in (48 <=? n)%N && (n <=? 57)%N.

Definition isSign (c : ascii) : bool :=
  bool_decide (c = "+"%char) || bool_decide (c = "-"%char).

(** The longest run of digits at the head of [s], and what follows it. *)
Fixpoint spanDigits (s : string) : string * string :=
  match s with
  | EmptyString => ("", "")
  | String c s' =>
      if isDigit c
      then let '(ds, r) := spanDigits s' in (String c ds, r)
      else ("", s)
  end.

(** The group of a match of the expression that starts at the first byte. *)
Definition matchHere (s : string) : option string :=
  match s with
  | String p (String sg rest) =>
      if bool_decide (p = "("%char) && isSign sg then
        match spanDigits rest with
        | (String d ds, String q _) =>
            if bool_decide (q = ")"%char) then Some (String sg (String d ds))
            else None
        | _ => None
        end
      else None
  | _ => None
  end.

(** [referenceCountRegex.FindStringSubmatch(field)], reduced to its
    submatch 1: the expression is not anchored, the leftmost match wins. *)
Fixpoint FindStringSubmatch (s : string) : option string :=
  match matchHere s with
  | Some g => Some g
  | None =>
      match s with
      | EmptyString => None
      | String _ s' => FindStringSubmatch s'
      end
  end.

Section Diff.

Variable w : strconv.WordSize.

Definition parseReferenceCount (field : string) : result error Z :=
  match FindStringSubmatch field with
  | None => Err RegexpNoMatch
  | Some m1 =>
      match strconv.Atoi w m1 with
      | inl e => Err (AtoiFailed e)
      | inr v => Ok v
      end
  end.

(** The first [switch] of [parseInodeChange]: the field count a change
    type requires. *)
Definition checkFieldCount (changeType : ChangeType) (llen : nat)
  : result error unit :=
  match changeType with
  | Renamed =>
      if bool_decide (llen ≠ 4) then Err (MismatchFields "4" llen)
      else Ok tt
  | Modified =>
      if bool_decide (llen ≠ 4) && bool_decide (llen ≠ 3)
      then Err (MismatchFields "3..4" llen)
      else Ok tt
  | _ =>
      if bool_decide (llen ≠ 3) then Err (MismatchFields "3" llen)
      else Ok tt
  end.

(** The second [switch]: the rename target or the reference count. *)
Definition parseExtra (changeType : ChangeType) (line : list string)
  : result error (string * Z) :=
  match changeType with
  | Renamed =>
      let! l3 := index line 3 in
      match unescapeFilepath l3 with
      | Ok newPath => Ok (newPath, 0%Z)
      | Err e => Err (FailedFilename e)
      | Panic => Panic
      end
  | Modified =>
      if bool_decide (length line = 4) then
        let! l3 := index line 3 in
        match parseReferenceCount l3 with
        | Ok referenceCount => Ok ("", referenceCount)
        | Err e => Err (FailedReferenceCount e)
        | Panic => Panic
        end
      else Ok ("", 0%Z)
  | _ => Ok ("", 0%Z)
  end.

Definition parseInodeChange (line : list string) : result error InodeChange :=
  let llen := length line in
  if bool_decide (llen < 1) then Err EmptyLine else
  let! l0 := index line 0 in
  let changeType := lookup0 UnknownChange changeTypeMap l0 in
  if bool_decide (changeType = UnknownChange) then Err (UnknownChangeType l0)
  else
  let! _ := checkFieldCount changeType llen in
  let! l1 := index line 1 in
  let inodeType := lookup0 UnknownInode inodeTypeMap l1 in
  if bool_decide (inodeType = UnknownInode) then Err (UnknownInodeType l1)
  else
  let! l2 := index line 2 in
  match unescapeFilepath l2 with
  | Panic => Panic
  | Err e => Err (FailedFilename e)
  | Ok path =>
      let! extra := parseExtra changeType line in
      Ok {| Change := changeType;
            IType := inodeType;
            Path := path;
            NewPath := fst extra;
            ReferenceCountChange := snd extra |}
  end.

(** The loop of [parseInodeChanges]: [changes] has one slot per line,
    [nil] ([None]) until its line is parsed.  The two values of the Go
    return statement are kept as a pair; [None] is a panic. *)
Fixpoint parseInodeChanges_loop (i : nat) (lines : list (list string))
    (changes : list (option InodeChange))
  : option (list (option InodeChange) * option error) :=
  match lines with
  | [] => Some (changes, None)
  | line :: lines' =>
      match parseInodeChange line with
      | Panic => None
      | Err e => Some ([], Some (FailedLine i e line))
      | Ok c => parseInodeChanges_loop (S i) lines' (<[i := Some c]> changes)
      end
  end.

Definition parseInodeChanges (lines : list (list string))
  : option (list (option InodeChange) * option error) :=
  parseInodeChanges_loop 0 lines (replicate (length lines) None).

End Diff.

(** ** Captured output to rows *)

(** [strings.Split(s, sep)] for a one-byte separator: [cur] is the segment
    being read.  The last segment is always emitted, empty or not. *)
Fixpoint Split_from (sep : ascii) (cur : string) (s : string) : list string :=
  match s with
  | EmptyString => [cur]
  | String c s' =>
      if bool_decide (c = sep) then cur :: Split_from sep "" s'
      else Split_from sep (push cur c) s'
  end.

Definition Split (s : string) (sep : ascii) : list string :=
  Split_from sep "" s.

(** Width in bytes of the white-space rune at the head of [s], 0 when the
    head is not white space ([unicode.IsSpace] on the UTF-8 decoding):
    tab, line feed, vertical tab, form feed, carriage return, space, then
    U+0085, U+00A0, U+1680, U+2000..U+200A, U+2028, U+2029, U+202F, U+205F
    and U+3000.  The bytes inside another rune are continuation bytes or
    decode to the replacement rune, neither of which is white space. *)
Definition spaceWidth (s : string) : nat :=
  match s with
  | EmptyString => 0
  | String c rest =>
      let n := N_of_ascii c in
      if ((9 <=? n)%N && (n <=? 13)%N) || (n =? 32)%N then 1
      else
        match rest with
        | String c1 rest1 =>
            let n1 := N_of_ascii c1 in
            if (n =? 194)%N then
              if (n1 =? 133)%N || (n1 =? 160)%N then 2 else 0
            else
              match rest1 with
              | String c2 _ =>
                  let n2 := N_of_ascii c2 in
                  if (n =? 225)%N && (n1 =? 154)%N && (n2 =? 128)%N then 3
                  else if (n =? 226)%N && (n1 =? 128)%N
                          && (((128 <=? n2)%N && (n2 <=? 138)%N)
                              || (n2 =? 168)%N || (n2 =? 169)%N
                              || (n2 =? 175)%N) then 3
                  else if (n =? 226)%N && (n1 =? 129)%N && (n2 =? 159)%N
                       then 3
                  else if (n =? 227)%N && (n1 =? 128)%N && (n2 =? 128)%N
                       then 3
                  else 0
              | EmptyString => 0
              end
        | EmptyString => 0
        end
  end.

(** The field being read, emitted when white space or the end is met. *)
Definition flush (cur : option string) : list string :=
  match cur with
  | Some f => [f]
  | None => []
  end.

(** [strings.Fields]: [skip] counts the bytes left of a white-space rune
    already recognised, [cur] is the field being read, if any. *)
Fixpoint Fields_from (skip : nat) (cur : option string) (s : string)
  : list string :=
  match s with
  | EmptyString => flush cur
  | String c s' =>
      match skip with
      | S k => Fields_from k cur s'
      | O =>
          match spaceWidth s with
          | O => Fields_from 0 (Some (push (default "" cur) c)) s'
          | S k => (flush cur ++ Fields_from k None s')%list
          end
      end
  end.

Definition Fields (s : string) : list string := Fields_from 0 None s.

(** [lines[0:hi]] for a signed bound: panics ([None]) out of range. *)
Definition slice_to {A} (l : list A) (hi : Z) : option (list A) :=
  if (0 <=? hi)%Z && (hi <=? Z.of_nat (length l))%Z
  then Some (take (Z.to_nat hi) l)
  else None.

Definition newline : ascii := "010"%char.

(** The end of [command.Run], once the command has succeeded and no sink
    was supplied: split the captured text into lines, drop the last one,
    split each line into fields (slot [i] of [output] receives the fields
    of line [i]). *)
Definition tokenize {E} (captured : string) : result E (list (list string)) :=
  let lines := Split captured newline in
  match slice_to lines (Z.of_nat (length lines) - 1) with
  | None => Panic
  | Some lines => Ok (Fields <$> lines)
  end.

(** [zfs.Error]: the cause, the command line, the diagnostic text. *)
Record Error : Type := mkError {
  Err_ : string;
  Debug : string;
  Stderr : string
}.

(** What executing the command contributes to [Run]: the error of starting
    it and of waiting for it, if any, and the two captured streams. *)
Record Execution : Type := mkExecution {
  start_err : option string;
  wait_err : option string;
  stdout : string;
  stderr : string
}.

(** [command.Run]: [Command] and [arg] give the debug text, [hasStdout]
    says whether the caller supplied its own sink ([c.Stdout != nil]). *)
Definition Run (Command : string) (hasStdout : bool) (arg : list string)
    (x : Execution) : result Error (list (list string)) :=
  let joinedArgs := String.concat " " arg in
  let debug := String.concat " " [Command; joinedArgs] in
  match start_err x with
  | Some e => Err (mkError e debug (stderr x))
  | None =>
      match wait_err x with
      | Some e => Err (mkError e debug (stderr x))
      | None => if hasStdout then Ok [] else tokenize (stdout x)
      end
  end.

(** ** Tabular records *)

Inductive DsField : Type :=
| Name | Origin | Used | Avail | Mountpoint | Compression | Type_
| Written | Volsize | Logicalused | Quota | ReceiveResumeToken
| Compressratio | Usedbysnapshots.

#[global] Instance DsField_eq_dec : EqDecision DsField.
Proof. solve_decision. Defined.

(** A [Dataset] gives each of its fields a string. *)
Definition Dataset : Type := DsField -> string.

Inductive ZpoolField : Type :=
| ZName | Health | Allocated | Size | Free.

#[global] Instance ZpoolField_eq_dec : EqDecision ZpoolField.
Proof. solve_decision. Defined.

Definition Zpool : Type := ZpoolField -> string.

(** Code that updates a record [S] in place and may fail or panic: the
    record is threaded through, and is returned as it stands when the code
    stops early. *)
Definition M (S A : Type) : Type := S -> S * result error A.

Definition ret {S A} (a : A) : M S A := fun s => (s, Ok a).

Definition bind {S A B} (m : M S A) (k : A -> M S B) : M S B :=
  fun s =>
    match m s with
    | (s', Ok a) => k a s'
    | (s', Err e) => (s', Err e)
    | (s', Panic) => (s', Panic)
    end.

Definition fail {S A} (e : error) : M S A := fun s => (s, Err e).

Notation "m1 ;;; m2" := (bind m1 (fun _ => m2))
  (at level 100, m2 at level 200, right associativity, only parsing).

(** [line[i]] inside [M]. *)
Definition at_ {S} (line : list string) (i : nat) : M S string :=
  fun s => (s, index line i).

(** [setString(&rec.field, value)]: ["-"] stands for no value. *)
Definition setString {F} `{EqDecision F} (field : F) (value : string)
  : M (F -> string) unit :=
  fun s =>
    let v := if bool_decide (value ≠ "-") then value else "" in
    (<[field := v]> s, Ok tt).

(** [setString(&rec.field, line[i])]: the index is evaluated first. *)
Definition setAt {F} `{EqDecision F} (field : F) (line : list string) (i : nat)
  : M (F -> string) unit :=
  bind (at_ line i) (setString field).

Section Mapper.

(** [runtime.GOOS], and the column lists of the platform files. *)
Variable GOOS : string.
Variable DsPropList : list string.
Variable ZpoolPropList : list string.

Definition parseLine (line : list string) : M Dataset unit :=
  if bool_decide (length line ≠ length DsPropList)
  then fail (OutputMismatch "ZFS output does not match what is expectedon this platform")
  else
    setAt Name line 0 ;;;
    setAt Avail line 3 ;;;
    setAt Compression line 5 ;;;
    setAt Mountpoint line 4 ;;;
    setAt Quota line 8 ;;;
    setAt Type_ line 6 ;;;
    setAt Origin line 1 ;;;
    setAt Used line 2 ;;;
    setAt Volsize line 7 ;;;
    if bool_decide (GOOS ≠ "solaris") then
      setAt Written line 9 ;;;
      setAt Logicalused line 10 ;;;
      setAt ReceiveResumeToken line 11
    else ret tt.

Definition Zpool_parseLine (line : list string) : M Zpool unit :=
  if bool_decide (length line ≠ length ZpoolPropList)
  then fail (OutputMismatch "Zpool output not what is expected onthis platform")
  else
    setAt ZName line 0 ;;;
    setAt Health line 1 ;;;
    setAt Allocated line 2 ;;;
    setAt Size line 3 ;;;
    setAt Free line 4.

End Mapper.

(** ** Property arguments *)

(** The body of [propsSlice] run over the entries in the order [order]. *)
Definition propsSlice_over (order : list (string * string)) : list string :=
  foldl (fun (args : list string) '(k, v) =>
           ((args ++ ["-o"]) ++ [k +:+ "=" +:+ v])%list) [] order.

(** [propsSlice(properties)]: Go ranges over a map in an order of its own
    choosing, so any enumeration of the entries may be the one used. *)
Definition propsSlice (properties : gmap string string) (args : list string)
  : Prop :=
  exists order, order ≡ₚ map_to_list properties /\ args = propsSlice_over order.

(** ** Vocabulary of the statements *)

(** A base-8 digit, ['0'] to ['7']. *)
Definition isOctal (c : ascii) : bool :=
  (48 <=? N_of_ascii c)%N && (N_of_ascii c <=? 55)%N.

(** The value of a digit byte. *)
Definition digitOf (c : ascii) : N := (N_of_ascii c - 48)%N.

(** Every byte of [s] satisfies [p]. *)
Fixpoint all_bytes (p : ascii -> bool) (s : string) : bool :=
  match s with
  | EmptyString => true
  | String c s' => p c && all_bytes p s'
  end.

(** The number a string of octal digits denotes, continuing from [n]. *)
Fixpoint octalValue_from (n : N) (s : string) : N :=
  match s with
  | EmptyString => n
  | String c s' => octalValue_from (n * 8 + digitOf c) s'
  end.

Definition octalValue (s : string) : N := octalValue_from 0 s.

(** The cutoff of [ParseUint] in base 8. *)
Definition cutoff8 : N := (strconv.maxUint64 / 8 + 1)%N.

(** The byte [b] occurs in [s]. *)
Fixpoint contains_byte (b : ascii) (s : string) : bool :=
  match s with
  | EmptyString => false
  | String c s' => bool_decide (c = b) || contains_byte b s'
  end.

(** The number a string of decimal digits denotes, continuing from [n]. *)
Fixpoint decimalValue_from (n : N) (s : string) : N :=
  match s with
  | EmptyString => n
  | String c s' => decimalValue_from (n * 10 + digitOf c) s'
  end.

Definition decimalValue (s : string) : N := decimalValue_from 0 s.

(** The integer a sign and a magnitude denote. *)
Definition signedValue (sg : ascii) (m : N) : Z :=
  if bool_decide (sg = "-"%char) then (- Z.of_N m)%Z else Z.of_N m.

(** The range of Go's [int]. *)
Definition minInt (w : strconv.WordSize) : Z :=
  (- 2 ^ (Z.of_N (strconv.IntSize w) - 1))%Z.

Definition maxInt (w : strconv.WordSize) : Z :=
  (2 ^ (Z.of_N (strconv.IntSize w) - 1) - 1)%Z.

Definition fitsInt (w : strconv.WordSize) (v : Z) : bool :=
  (minInt w <=? v)%Z && (v <=? maxInt w)%Z.

(** The cutoff of [ParseUint] in base 10. *)
Definition cutoff10 : N := (strconv.maxUint64 / 10 + 1)%N.

(** A reference-count annotation: an opening parenthesis, a sign, digits,
    a closing parenthesis. *)
Definition annotation (sg : ascii) (ds : string) : string :=
  String "(" (String sg ds) ++ ")".

(** [sg] is a sign and [ds] one or more digits. *)
Definition isAnnotation (sg : ascii) (ds : string) : Prop :=
  isSign sg = true /\ ds <> "" /\ all_bytes isDigit ds = true.

(** The annotation [sg ds] stands in [f] at offset [k]. *)
Definition annotatedAt (f : string) (k : nat) (sg : ascii) (ds : string)
  : Prop :=
  isAnnotation sg ds
  /\ exists pre post, f = pre ++ annotation sg ds ++ post
                      /\ String.length pre = k.

(** [sg ds] is the first annotation of [f], none starting before it. *)
Definition leftmostAnnotation (f : string) (sg : ascii) (ds : string) : Prop :=
  exists k, annotatedAt f k sg ds
            /\ forall k' sg' ds', k' < k -> ~ annotatedAt f k' sg' ds'.

(** [r] does not start with a digit. *)
Definition stopsDigits (r : string) : Prop :=
  match r with
  | EmptyString => True
  | String c _ => isDigit c = false
  end.

(** The number of fields a known change type requires. *)
Definition requiredFields (ct : ChangeType) (n : nat) : Prop :=
  match ct with
  | Renamed => n = 4
  | Modified => n = 3 \/ n = 4
  | _ => n = 3
  end.

(** The error of a field-count mismatch. *)
Definition isMismatch (r : result error InodeChange) : Prop :=
  exists expect got, r = Err (MismatchFields expect got).

(** A line break, as text. *)
Definition nl : string := String newline "".

(** Two data lines followed by one blank line. *)
Definition two_lines_and_blank : string :=
  "a b" ++ nl ++ "c d" ++ nl ++ nl.

(** Two data lines, each ended by its line break. *)
Definition two_lines : string := "a b" ++ nl ++ "c d" ++ nl.

(** The sentinel rule: ["-"] reads as no value. *)
Definition sentinel (value : string) : string :=
  if bool_decide (value = "-") then "" else value.

(** The column a [Dataset] field is read from, if any, on [GOOS]. *)
Definition column (GOOS : string) (field : DsField) : option nat :=
  match field with
  | Name => Some 0
  | Origin => Some 1
  | Used => Some 2
  | Avail => Some 3
  | Mountpoint => Some 4
  | Compression => Some 5
  | Type_ => Some 6
  | Volsize => Some 7
  | Quota => Some 8
  | Written => if bool_decide (GOOS = "solaris") then None else Some 9
  | Logicalused => if bool_decide (GOOS = "solaris") then None else Some 10
  | ReceiveResumeToken =>
      if bool_decide (GOOS = "solaris") then None else Some 11
  | Compressratio | Usedbysnapshots => None
  end.

(** The number of columns [Dataset.parseLine] reads on [GOOS]. *)
Definition columnsRead (GOOS : string) : nat :=
  if bool_decide (GOOS = "solaris") then 9 else 12.

(** The column a [Zpool] field is read from. *)
Definition zcolumn (field : ZpoolField) : nat :=
  match field with
  | ZName => 0 | Health => 1 | Allocated => 2 | Size => 3 | Free => 4
  end.

(** The record a row maps to: each field its column under the sentinel
    rule, the fields with no column as they were. *)
Definition mapped (GOOS : string) (line : list string) (ds : Dataset)
  : Dataset :=
  fun field =>
    match column GOOS field with
    | Some i => sentinel (default "" (line !! i))
    | None => ds field
    end.

(** The tokens of one property. *)
Definition propTokens (kv : string * string) : list string :=
  ["-o"; fst kv ++ "=" ++ snd kv].

(** How many times the byte [b] occurs in [s]. *)
Fixpoint countByte (b : ascii) (s : string) : nat :=
  match s with
  | EmptyString => 0
  | String c s' => (if bool_decide (c = b) then 1 else 0) + countByte b s'
  end.

(** The octal digit of value [d]. *)
Definition octalDigit (d : N) : ascii := ascii_of_N (48 + d).

(** The four octal digits of a byte, most significant first. *)
Definition octal4 (b : ascii) : string :=
  let n := N_of_ascii b in
  String (octalDigit (n / 512 mod 8))
    (String (octalDigit (n / 64 mod 8))
       (String (octalDigit (n / 8 mod 8))
          (String (octalDigit (n mod 8)) ""))).

(** The encoding [unescapeFilepath] reads: the bytes chosen by [esc] are
    written as a backslash and their four octal digits, the others as
    themselves. *)
Fixpoint escapeWith (esc : ascii -> bool) (s : string) : string :=
  match s with
  | EmptyString => ""
  | String c s' =>
      (if esc c then String "\" (octal4 c) else String c "")
      ++ escapeWith esc s'
  end.

(** The rows of a batch parsed one after the other, stopping at the first
    that fails, whose index, error and content are kept. *)
Fixpoint parseRows (w : strconv.WordSize) (lines : list (list string))
  : result (nat * error * list string) (list InodeChange) :=
  match lines with
  | [] => Ok []
  | line :: lines' =>
      match parseInodeChange w line with
      | Ok c =>
          match parseRows w lines' with
          | Ok cs => Ok (c :: cs)
          | Err (k, e, l) => Err (S k, e, l)
          | Panic => Panic
          end
      | Err e => Err (0, e, line)
      | Panic => Panic
      end
  end.

(** What [parseInodeChanges] returns for an outcome of [parseRows]. *)
Definition batchOf (r : result (nat * error * list string) (list InodeChange))
  : option (list (option InodeChange) * option error) :=
  match r with
  | Ok cs => Some (Some <$> cs, None)
  | Err (k, e, l) => Some ([], Some (FailedLine k e l))
  | Panic => None
  end.

(** The six ASCII white-space bytes: tab, line feed, vertical tab, form
    feed, carriage return, space. *)
Definition isAsciiSpace (c : ascii) : bool :=
  let n := N_of_ascii c in ((9 <=? n)%N && (n <=? 13)%N) || (n =? 32)%N.

(** A printable ASCII byte other than the space. *)
Definition isFieldByte (c : ascii) : bool :=
  let n := N_of_ascii c in (33 <=? n)%N && (n <=? 126)%N.

(** A field as [Run] returns them: not empty, no ASCII white space. *)
Definition isField (f : string) : Prop :=
  f <> "" /\ all_bytes (fun c => negb (isAsciiSpace c)) f = true.

(** A field of printable ASCII bytes. *)
Definition isPlainField (f : string) : Prop :=
  f <> "" /\ all_bytes isFieldByte f = true.

Definition tab : ascii := "009"%char.

(** A table as the wrapped tool prints it with [-H]: the fields of a row
    separated by tabs, each row ended by a line break. *)
Definition renderRow (row : list string) : string :=
  String.concat (String tab "") row.

Fixpoint render (rows : list (list string)) : string :=
  match rows with
  | [] => ""
  | row :: rows' => renderRow row ++ String newline (render rows')
  end.

(** ** Numeric fields and dataset names *)

(** [setUint(field, value)]: the content of [*field] afterwards and the
    error returned; ["-"] stands for zero, and a value that does not parse
    leaves the field as it was. *)
Definition setUint (field : N) (value : string) : N * option NumError :=
  if bool_decide (value <> "-") then
    match strconv.ParseUint value 10 64 with
    | inl e => (field, Some e)
    | inr v => (v, None)
    end
  else (0%N, None).

Definition DatasetSnapshot : string := "snapshot".
Definition DatasetBookmark : string := "bookmark".

(** [Dataset.DataSetName]: the second segment of the name, split at the
    mark of its type. *)
Definition DataSetName (d : Dataset) : result error string :=
  if bool_decide (d Type_ = DatasetSnapshot)
  then index (Split (d Name) "@") 1
  else if bool_decide (d Type_ = DatasetBookmark)
       then index (Split (d Name) "#") 1
       else Ok "".

(** ** Operations on datasets *)

(** What an operation of the package fails with: the error of the command,
    the error of a row mapper, or an [errors.New] of its own. *)
Inductive opError : Type :=
| CommandFailed (e : Error)
| OutputRejected (e : error)
| Refused (why : string).

(** [&Dataset{Name: name}]. *)
Definition newDataset (name : string) : Dataset :=
  <[Name := name]> (fun _ => "").

(** [strconv.Itoa] and [strconv.FormatUint(n, 10)]. *)
Definition Itoa (i : Z) : string := NilZero.string_of_int (Z.to_int i).
Definition FormatUint (n : N) : string := NilZero.string_of_uint (N.to_uint n).

Section Listing.

Variable GOOS : string.
Variable DsPropList : list string.

(** [ds.parseLine(line)] where [ds] points into [datasets], or is nil:
    on a nil receiver the count is still compared, and the first field
    access panics. *)
Definition parseLine_ptr (datasets : list Dataset) (ds : option nat)
    (line : list string) : list Dataset * result error unit :=
  match ds with
  | None =>
      (datasets,
       if bool_decide (length line <> length DsPropList)
       then Err (OutputMismatch
                   "ZFS output does not match what is expectedon this platform")
       else Panic)
  | Some i =>
      match datasets !! i with
      | None => (datasets, Panic)
      | Some d =>
          let '(d', r) := parseLine GOOS DsPropList line d in
          (<[i := d']> datasets, r)
      end
  end.

(** The [if name != line[0]] block: a new dataset is appended and becomes
    the current one. *)
Definition enterRow (l0 name : string) (ds : option nat)
    (datasets : list Dataset) : string * option nat * list Dataset :=
  if bool_decide (name <> l0)
  then (l0, Some (length datasets), (datasets ++ [newDataset l0])%list)
  else (name, ds, datasets).

(** The loop shared by [listByType] and [Children]: [name] is the name of
    the current dataset, [ds] points to it in [datasets]. *)
Fixpoint groupRows (out : list (list string)) (name : string)
    (ds : option nat) (datasets : list Dataset)
  : result error (list Dataset) :=
  match out with
  | [] => Ok datasets
  | line :: out' =>
      match index (E := error) line 0 with
      | Ok l0 =>
          let st := enterRow l0 name ds datasets in
          match parseLine_ptr (snd st) (snd (fst st)) line with
          | (datasets', Ok _) => groupRows out' (fst (fst st)) (snd (fst st)) datasets'
          | (_, Err e) => Err e
          | (_, Panic) => Panic
          end
      | Err e => Err e
      | Panic => Panic
      end
  end.

(** An operation's view of the rows of a listing. *)
Definition grouped (out : list (list string)) : result opError (list Dataset) :=
  match groupRows out "" None [] with
  | Ok datasets => Ok datasets
  | Err e => Err (OutputRejected e)
  | Panic => Panic
  end.

Definition listByType_args (t filter : string) (depth : Z) (recurse : bool)
  : list string :=
  let args := ["list"; "-H"; "-t"; t; "-o"; String.concat "," DsPropList] in
  let args := if bool_decide (-1 < depth)%Z
              then (args ++ ["-d"; Itoa depth])%list else args in
  let args := if recurse then (args ++ ["-r"])%list else args in
  if bool_decide (filter <> "") then (args ++ [filter])%list else args.

Definition listByType (t filter : string) (depth : Z) (recurse : bool)
    (x : Execution) : result opError (list Dataset) :=
  match Run "zfs" false (listByType_args t filter depth recurse) x with
  | Err e => Err (CommandFailed e)
  | Panic => Panic
  | Ok out => grouped out
  end.

Definition Children_args (d : Dataset) (depth : N) : list string :=
  let args := ["list"] in
  let args := if bool_decide (0 < depth)%N
              then (args ++ ["-d"; FormatUint depth])%list
              else (args ++ ["-r"])%list in
  ((args ++ ["-t"; "all"; "-Hp"; "-o"; String.concat "," DsPropList])
     ++ [d Name])%list.

(** [datasets[1:]] panics on an empty slice. *)
Definition Children (d : Dataset) (depth : N) (x : Execution)
  : result opError (list Dataset) :=
  match Run "zfs" false (Children_args d depth) x with
  | Err e => Err (CommandFailed e)
  | Panic => Panic
  | Ok out =>
      match grouped out with
      | Ok [] => Panic
      | Ok (_ :: rest) => Ok rest
      | Err e => Err e
      | Panic => Panic
      end
  end.

(** The loop of [GetDataset]: every row is mapped onto the same record. *)
Fixpoint parseLines (out : list (list string)) (ds : Dataset)
  : Dataset * result error unit :=
  match out with
  | [] => (ds, Ok tt)
  | line :: out' =>
      match parseLine GOOS DsPropList line ds with
      | (ds', Ok _) => parseLines out' ds'
      | (ds', r) => (ds', r)
      end
  end.

Definition GetDataset (name : string) (x : Execution)
  : result opError Dataset :=
  match Run "zfs" false
          ["list"; "-Hp"; "-o"; String.concat "," DsPropList; name] x with
  | Err e => Err (CommandFailed e)
  | Panic => Panic
  | Ok out =>
      match parseLines out (newDataset name) with
      | (ds, Ok _) => Ok ds
      | (_, Err e) => Err (OutputRejected e)
      | (_, Panic) => Panic
      end
  end.

End Listing.

(** [GetProperty]: the third field of the first row. *)
Definition GetProperty (d : Dataset) (key : string) (x : Execution)
  : result opError string :=
  match Run "zfs" false ["get"; "-Hp"; key; d Name] x with
  | Err e => Err (CommandFailed e)
  | Panic => Panic
  | Ok out =>
      match out !! 0 with
      | None => Panic
      | Some row =>
          match row !! 2 with
          | None => Panic
          | Some v => Ok v
          end
      end
  end.

(** The record a row alone determines. *)
Definition datasetOf (GOOS : string) (row : list string) : Dataset :=
  mapped GOOS row (fun _ => "").

(** The last row of each run of consecutive rows with the same first
    field. *)
Fixpoint lastOfRuns (rows : list (list string)) : list (list string) :=
  match rows with
  | [] => []
  | row :: rest =>
      match rest with
      | next :: _ =>
          if bool_decide (row !! 0 = next !! 0) then lastOfRuns rest
          else row :: lastOfRuns rest
      | [] => [row]
      end
  end.

(** A row of a listing: as many fields as columns, the first not empty. *)
Definition isListingRow (DsPropList row : list string) : Prop :=
  length row = length DsPropList /\ row !! 0 <> Some "".

(** The pointer is nil before the first row and points into the slice
    afterwards. *)
Definition pointerOk (name : string) (ds : option nat)
    (datasets : list Dataset) : Prop :=
  (ds = None /\ name = "")
  \/ (exists i, ds = Some i /\ i < length datasets).

(** The mismatch error of [Dataset.parseLine]. *)
Definition datasetMismatch : error :=
  OutputMismatch "ZFS output does not match what is expectedon this platform".

(** ** Flags and command lines *)

(** [flags&bit != 0] on Go integers. *)
Definition hasFlag (flags bit : Z) : bool := negb (Z.land flags bit =? 0)%Z.

Definition DestroyDefault : Z := 1.
Definition DestroyRecursive : Z := 2.
Definition DestroyRecursiveClones : Z := 4.
Definition DestroyDeferDeletion : Z := 8.
Definition DestroyForceUmount : Z := 16.

Definition SendDefault : Z := 1.
Definition SendIncremental : Z := 2.
Definition SendRecursive : Z := 4.
Definition SendIntermediate : Z := 8.
Definition SendLz4 : Z := 16.
Definition SendEmbeddedData : Z := 32.
Definition SendWithToken : Z := 64.

(** [args = append(args, tok)] when the flag is set. *)
Definition appendIf (b : bool) (toks args : list string) : list string :=
  if b then (args ++ toks)%list else args.

(** The arguments [Destroy] passes to [zfs]. *)
Definition Destroy_args (d : Dataset) (flags : Z) : list string :=
  let args := ["destroy"] in
  let args := appendIf (hasFlag flags DestroyRecursive) ["-r"] args in
  let args := appendIf (hasFlag flags DestroyRecursiveClones) ["-R"] args in
  let args := appendIf (hasFlag flags DestroyDeferDeletion) ["-d"] args in
  let args := appendIf (hasFlag flags DestroyForceUmount) ["-f"] args in
  (args ++ [d Name])%list.

Definition Destroy (d : Dataset) (flags : Z) (x : Execution)
  : option opError :=
  match Run "zfs" false (Destroy_args d flags) x with
  | Err e => Some (CommandFailed e)
  | _ => None
  end.

(** The checks and the arguments of [SendSnapshot]. *)
Definition SendSnapshot_args (ds0 ds1 : string) (sendflags : Z)
    (compress : string) : result opError (list string) :=
  if (Z.land sendflags SendWithToken =? 0)%Z && negb (contains_byte "@" ds0)
  then Err (Refused "can only send snapshots")
  else
    let args := ["send"] in
    let args := appendIf (hasFlag sendflags SendRecursive) ["-R"] args in
    let args := appendIf (hasFlag sendflags SendLz4) ["-c"] args in
    let args := appendIf (hasFlag sendflags SendWithToken) ["-t"] args in
    let args := appendIf (hasFlag sendflags SendEmbeddedData) ["-e"] args in
    let! args :=
      if hasFlag sendflags SendIncremental then
        if bool_decide (ds1 = "")
        then Err (Refused "Source snapshot must be set for incremental send")
        else if hasFlag sendflags SendIntermediate
             then Ok (args ++ ["-I"; ds1])%list
             else Ok (args ++ ["-i"; ds1])%list
      else Ok args in
    let args := (args ++ [ds0])%list in
    Ok (appendIf (bool_decide (compress <> "")) ["|"; compress] args).

(** [SendSnapshot]: the stream goes to the caller's sink. *)
Definition SendSnapshot (ds0 ds1 : string) (sendflags : Z)
    (compress : string) (x : Execution) : option opError :=
  match SendSnapshot_args ds0 ds1 sendflags compress with
  | Err e => Some e
  | Panic => None
  | Ok args =>
      match Run "zfs" true args x with
      | Err e => Some (CommandFailed e)
      | _ => None
      end
  end.

(** Where a stream of the child process is bound: the buffer of the
    command itself, or what the caller supplied. *)
Inductive binding : Type := OwnBuffer | Supplied.

(** The [exec.Cmd] that [LocalPrepare] builds: the argument vector and the
    three streams ([Stdin] stays unset unless the caller supplied one). *)
Record LocalCmd : Type := mkLocalCmd {
  argv : list string;
  cmdStdout : binding;
  cmdStdin : option binding;
  cmdStderr : binding
}.

(** [command.LocalPrepare]: the whole line goes through [sh -c] when the
    command holds a pipe sign, and is otherwise run as it is. *)
Definition LocalPrepare (Command : string)
    (hasStdin hasStdout hasStderr : bool) (arg : list string) : LocalCmd :=
  {| argv := if contains_byte "|" Command
             then ["sh"; "-c"; Command ++ " " ++ String.concat " " arg]
             else Command :: arg;
     cmdStdout := if hasStdout then Supplied else OwnBuffer;
     cmdStdin := if hasStdin then Some Supplied else None;
     cmdStderr := if hasStderr then Supplied else OwnBuffer |}.

(** The command [ReceiveSnapshot] runs and its arguments. *)
Definition ReceiveSnapshot_command (uncompress : string) : string :=
  if bool_decide (uncompress <> "") then uncompress ++ "|zfs" else "zfs".

Definition ReceiveSnapshot_args (name : string) (props : list string)
  : list string :=
  let args :=
    foldl (fun (args : list string) prop =>
             if contains_byte "=" prop
             then ((args ++ ["-o"]) ++ [prop])%list else args)
      ["receive"] props in
  ((args ++ ["-s"]) ++ [name])%list.

(** The option tokens of a flag word, in the order of a table. *)
Definition flagTokens (table : list (Z * string)) (flags : Z) : list string :=
  snd <$> filter (fun p => hasFlag flags (fst p) = true) table.

Definition destroyTable : list (Z * string) :=
  [(DestroyRecursive, "-r"); (DestroyRecursiveClones, "-R");
   (DestroyDeferDeletion, "-d"); (DestroyForceUmount, "-f")].

Definition sendTable : list (Z * string) :=
  [(SendRecursive, "-R"); (SendLz4, "-c"); (SendWithToken, "-t");
   (SendEmbeddedData, "-e")].

(** What [SendSnapshot] appends for an incremental send. *)
Definition incrementalArgs (sendflags : Z) (ds1 : string) : list string :=
  if hasFlag sendflags SendIncremental
  then [if hasFlag sendflags SendIntermediate then "-I" else "-i"; ds1]
  else [].

(** What [SendSnapshot] appends for a compression program. *)
Definition pipeArgs (compress : string) : list string :=
  if bool_decide (compress <> "") then ["|"; compress] else [].

(** ** Pools *)

(** [&Zpool{Name: name}]. *)
Definition newZpool (name : string) : Zpool :=
  <[ZName := name]> (fun _ => "").

(** The loop of [GetZpool]: every row is mapped onto the same record. *)
Fixpoint Zpool_parseLines (ZpoolPropList : list string)
    (out : list (list string)) (zp : Zpool) : Zpool * result error unit :=
  match out with
  | [] => (zp, Ok tt)
  | line :: out' =>
      match Zpool_parseLine ZpoolPropList line zp with
      | (zp', Ok _) => Zpool_parseLines ZpoolPropList out' zp'
      | (zp', r) => (zp', r)
      end
  end.

(** [GetZpool]: [zpool list] has no [-H], so the first row, the header,
    is sliced off ([out[1:]], which panics when there is no row). *)
Definition GetZpool (ZpoolPropList : list string) (name : string)
    (x : Execution) : result opError Zpool :=
  match Run "zpool" false
          ["list"; "-o"; String.concat "," ZpoolPropList; name] x with
  | Err e => Err (CommandFailed e)
  | Panic => Panic
  | Ok out =>
      match out with
      | [] => Panic
      | _ :: out =>
          match Zpool_parseLines ZpoolPropList out (newZpool name) with
          | (zp, Ok _) => Ok zp
          | (_, Err e) => Err (OutputRejected e)
          | (_, Panic) => Panic
          end
      end
  end.

(** The pool a row alone determines. *)
Definition zpoolOf (row : list string) : Zpool :=
  fun field => sentinel (default "" (row !! zcolumn field)).

(** The mismatch error of [Zpool.parseLine]. *)
Definition zpoolMismatch : error :=
  OutputMismatch "Zpool output not what is expected onthis platform".

(** ** Diff, end to end *)

(** [Diff]: the rows of [zfs diff -FH] parsed as a batch. *)
Definition Diff (w : strconv.WordSize) (d : Dataset) (snapshot : string)
    (x : Execution) : result opError (list (option InodeChange)) :=
  match Run "zfs" false ["diff"; "-FH"; snapshot; d Name] x with
  | Err e => Err (CommandFailed e)
  | Panic => Panic
  | Ok out =>
      match parseInodeChanges w out with
      | None => Panic
      | Some (_, Some e) => Err (OutputRejected e)
      | Some (changes, None) => Ok changes
      end
  end.

(** The code of a change type and of an inode type in the two tables. *)
Definition changeCode (ct : ChangeType) : string :=
  match ct with
  | UnknownChange => ""
  | Removed => "-" | Created => "+" | Modified => "M" | Renamed => "R"
  end.

Definition inodeCode (ty : InodeType) : string :=
  match ty with
  | UnknownInode => ""
  | BlockDevice => "B" | CharacterDevice => "C" | Directory => "/"
  | Door => ">" | NamedPipe => "|" | SymbolicLink => "@"
  | EventPort => "P" | Socket => "=" | File => "F"
  end.

(** The bytes the wrapped tool escapes in a path: all but the printable
    ASCII bytes other than the space and the backslash. *)
Definition diffEscaped (c : ascii) : bool :=
  negb (isFieldByte c) || bool_decide (c = "\"%char).

Definition escapePath (path : string) : string := escapeWith diffEscaped path.

(** The row printed for a change that carries no reference count. *)
Definition diffRow (c : InodeChange) : list string :=
  ([changeCode (Change c); inodeCode (IType c); escapePath (Path c)]
   ++ (if bool_decide (Change c = Renamed)
       then [escapePath (NewPath c)] else []))%list.

(** A change such a row can stand for. *)
Definition isPrintedChange (c : InodeChange) : Prop :=
  Change c <> UnknownChange /\ IType c <> UnknownInode /\ Path c <> ""
  /\ ReferenceCountChange c = 0%Z
  /\ (if bool_decide (Change c = Renamed)
      then NewPath c <> "" else NewPath c = "").

(** * Properties *)

(** ** Strings as byte sequences *)

Lemma string_app_cons (c : ascii) (s t : string) :
  String c s ++ t = String c (s ++ t).
Proof. reflexivity. Qed.

Lemma string_app_nil_l (t : string) : "" ++ t = t.
Proof. reflexivity. Qed.

Ltac string_ind s :=
  induction s; rewrite ?string_app_cons, ?string_app_nil_l; simpl;
  [try reflexivity | try congruence].

Lemma string_app_nil_r (s : string) : s ++ "" = s.
Proof. string_ind s. Qed.

Lemma string_app_assoc (a b c : string) : (a ++ b) ++ c = a ++ (b ++ c).
Proof. string_ind a. Qed.

Lemma string_length_app (a b : string) :
  String.length (a ++ b) = String.length a + String.length b.
Proof. string_ind a. Qed.

Lemma get_app_r (pre s : string) (k : nat) :
  String.get (String.length pre + k) (pre ++ s) = String.get k s.
Proof. string_ind pre. Qed.

Lemma substring_app_r (pre s : string) (n m : nat) :
  substring (String.length pre + n) m (pre ++ s) = substring n m s.
Proof. string_ind pre. Qed.

Lemma substring_prefix (q rest : string) :
  substring 0 (String.length q) (q ++ rest) = q.
Proof.
  string_ind q. now destruct rest.
Qed.

(** ** The loop of [unescapeFilepath], one iteration at a time *)

Lemma unescape_loop_step path i buf :
  unescape_loop path i buf =
  if decide (i < String.length path) then
    match String.get i path with
    | None => Panic
    | Some c =>
        if decide (c = "\"%char) then
          if decide (String.length path < i + 5) then Err OctalTooShort
          else match strconv.ParseUint (substring (i + 1) 4 path) 8 8 with
               | inl e => Err (OctalInvalid e)
               | inr val => unescape_loop path (i + 5) (push buf (byte_of val))
               end
        else unescape_loop path (i + 1) (push buf c)
    end
  else Ok buf.
Proof.
  funelim (unescape_loop path i buf); clear Heqcall;
    repeat match goal with
           | H : ?x = _ |- context [?x] => rewrite H
           end; reflexivity.
Qed.

Lemma rmap_rmap {E A B C} (f : A -> B) (g : B -> C) (r : result E A) :
  rmap g (rmap f r) = rmap (fun a => g (f a)) r.
Proof. now destruct r. Qed.

Lemma rmap_ext {E A B} (f g : A -> B) (r : result E A) :
  (forall a, f a = g a) -> rmap f r = rmap g r.
Proof. intros H. destruct r; simpl; unfold rmap; simpl; [now rewrite H | easy | easy]. Qed.

(** What the loop does from index [length pre] of [pre ++ s] only depends
    on [s]: it appends to [buf] what it would build on [s] alone. *)
Lemma unescape_loop_shift (n : nat) : forall (s pre buf : string),
  String.length s <= n ->
  unescape_loop (pre ++ s) (String.length pre) buf
  = rmap (append buf) (unescape_loop s 0 "").
Proof.
  induction n as [|n IH]; intros s pre buf Hn.
  - destruct s; [|simpl in Hn; lia].
    rewrite (unescape_loop_step (pre ++ "")), (unescape_loop_step "").
    rewrite string_length_app. simpl.
    destruct (decide (_ < _)); [lia|].
    destruct (decide (0 < 0)); [lia|].
    unfold rmap; simpl. now rewrite string_app_nil_r.
  - destruct s as [|c s].
    { rewrite (unescape_loop_step (pre ++ "")), (unescape_loop_step "").
      rewrite string_length_app. simpl.
      destruct (decide (_ < _)); [lia|].
      destruct (decide (0 < 0)); [lia|].
      unfold rmap; simpl. now rewrite string_app_nil_r. }
    simpl in Hn.
    rewrite (unescape_loop_step (pre ++ String c s)),
            (unescape_loop_step (String c s)).
    rewrite string_length_app. simpl String.length.
    destruct (decide (String.length pre < _)); [|lia].
    destruct (decide (0 < _)); [|lia].
    replace (String.length pre) with (String.length pre + 0) at 1 by lia.
    rewrite get_app_r. simpl String.get.
    destruct (decide (c = "\"%char)) as [Hc|Hc];
      repeat case_decide; try lia; try contradiction; try reflexivity.
    + rewrite substring_app_r. simpl (0 + 1).
      destruct (strconv.ParseUint (substring 1 4 (String c s)) 8 8) as [e|val];
        [reflexivity|].
      destruct s as [|d1 [|d2 [|d3 [|d4 s]]]]; simpl in *; try lia.
      set (q := String c (String d1 (String d2 (String d3 (String d4 ""))))).
      change (String c (String d1 (String d2 (String d3 (String d4 s)))))
        with (q ++ s).
      rewrite <- string_app_assoc.
      change (String.length pre + 5)
        with (String.length pre + String.length q).
      rewrite <- string_length_app.
      rewrite IH by lia.
      change 5 with (String.length q).
      rewrite (IH s q) by lia.
      rewrite rmap_rmap. apply rmap_ext. intros a.
      unfold push. now rewrite !string_app_assoc.
    + set (q := String c "").
      change (String c s) with (q ++ s).
      rewrite <- string_app_assoc.
      change (String.length pre + 1)
        with (String.length pre + String.length q).
      rewrite <- string_length_app.
      rewrite IH by lia.
      change (0 + 1) with (String.length q).
      rewrite (IH s q) by lia.
      rewrite rmap_rmap. apply rmap_ext. intros a.
      unfold push. now rewrite !string_app_assoc.
Qed.

Lemma unescapeFilepath_nil : unescapeFilepath "" = Ok "".
Proof. reflexivity. Qed.

Lemma unescapeFilepath_plain (c : ascii) (rest : string) :
  c <> "\"%char ->
  unescapeFilepath (String c rest) = rmap (String c) (unescapeFilepath rest).
Proof.
  intros Hc. unfold unescapeFilepath.
  rewrite unescape_loop_step. simpl String.length. simpl String.get.
  repeat case_decide; try lia; try contradiction.
  apply (unescape_loop_shift (String.length rest) rest (String c "")). lia.
Qed.

Lemma unescapeFilepath_short (rest : string) :
  String.length rest < 4 ->
  unescapeFilepath (String "\" rest) = Err OctalTooShort.
Proof.
  intros Hl. unfold unescapeFilepath.
  rewrite unescape_loop_step. simpl String.length. simpl String.get.
  repeat case_decide; try lia; try congruence.
Qed.

Lemma unescapeFilepath_escape (q rest : string) :
  String.length q = 4 ->
  unescapeFilepath (String "\" (q ++ rest))
  = match strconv.ParseUint q 8 8 with
    | inl e => Err (OctalInvalid e)
    | inr val => rmap (String (byte_of val)) (unescapeFilepath rest)
    end.
Proof.
  intros Hq. unfold unescapeFilepath.
  rewrite unescape_loop_step. simpl String.length. simpl String.get.
  rewrite string_length_app.
  repeat case_decide; try lia; try congruence.
  simpl (0 + 1). simpl substring. rewrite <- Hq, substring_prefix.
  destruct (strconv.ParseUint q 8 8) as [e|val]; [reflexivity|].
  change (String "\" (q ++ rest)) with ((String "\" q) ++ rest).
  replace (0 + 5) with (String.length (String "\" q)) by (simpl; lia).
  apply (unescape_loop_shift (String.length rest)). lia.
Qed.

(** ** [ParseUint] on octal digits, one byte wide *)

Lemma digitVal_octal (c : ascii) :
  match strconv.digitVal c with
  | Some d => (8 <=? d)%N = negb (isOctal c) /\ (isOctal c = true -> d = digitOf c)
  | None => isOctal c = false
  end.
Proof.
  destruct c as [[] [] [] [] [] [] [] []]; vm_compute; split; congruence.
Qed.

Lemma octalValue_from_le (s : string) (n : N) : (n <= octalValue_from n s)%N.
Proof.
  revert n. induction s as [|c s IH]; intros n; simpl; [lia|].
  specialize (IH (n * 8 + digitOf c)%N). lia.
Qed.

Lemma parseDigits_octal (s : string) (n : N) :
  (n <= 255)%N ->
  strconv.parseDigits 8 cutoff8 255 s n
  = if all_bytes isOctal s && (octalValue_from n s <=? 255)%N
    then inr (octalValue_from n s)
    else match strconv.parseDigits 8 cutoff8 255 s n with
         | inl k => inl k
         | inr _ => inl ErrSyntax
         end.
Proof.
  revert n. induction s as [|c s IH]; intros n Hn.
  - simpl. destruct (N.leb_spec n 255); [reflexivity | lia].
  - simpl. pose proof (digitVal_octal c) as Hd.
    destruct (strconv.digitVal c) as [d|].
    + destruct Hd as [Hd8 Hdv]. rewrite Hd8.
      destruct (isOctal c) eqn:Hoc; simpl; [|reflexivity].
      rewrite (Hdv eq_refl).
      assert (Hlt : (digitOf c < 8)%N).
      { rewrite <- (Hdv eq_refl). apply N.leb_gt. exact Hd8. }
      unfold cutoff8 at 1 3. change (strconv.maxUint64 / 8 + 1)%N with 2305843009213693952%N.
      destruct (N.leb_spec 2305843009213693952 n); [lia|].
      change (2 ^ 64)%N with 18446744073709551616%N.
      rewrite (N.mod_small (n * 8)) by lia.
      rewrite (N.mod_small (n * 8 + digitOf c)) by lia.
      destruct (N.ltb_spec (n * 8 + digitOf c) (n * 8)); [lia|]. simpl.
      destruct (N.ltb_spec 255 (n * 8 + digitOf c)) as [Hbig|Hsmall].
      * pose proof (octalValue_from_le s (n * 8 + digitOf c)).
        destruct (N.leb_spec (octalValue_from (n * 8 + digitOf c) s) 255); [lia|].
        now rewrite andb_false_r.
      * fold cutoff8. apply IH. exact Hsmall.
    + rewrite Hd. reflexivity.
Qed.

Lemma ParseUint_octal_ok (q : string) :
  q <> "" -> all_bytes isOctal q = true -> (octalValue q <= 255)%N ->
  strconv.ParseUint q 8 8 = inr (octalValue q).
Proof.
  intros Hq Hall Hv. unfold strconv.ParseUint.
  destruct q as [|c q]; [congruence|].
  change (strconv.maxUint64 / 8 + 1)%N with cutoff8.
  change ((2 ^ 8 - 1) mod 2 ^ 64)%N with 255%N.
  rewrite parseDigits_octal by lia.
  fold (octalValue (String c q)). rewrite Hall.
  destruct (N.leb_spec (octalValue (String c q)) 255); [reflexivity | lia].
Qed.

Lemma ParseUint_octal_bad (q : string) :
  all_bytes isOctal q = false \/ (255 < octalValue q)%N ->
  exists e, strconv.ParseUint q 8 8 = inl e.
Proof.
  intros Hbad. unfold strconv.ParseUint.
  destruct q as [|c q]; [eauto|].
  change (strconv.maxUint64 / 8 + 1)%N with cutoff8.
  change ((2 ^ 8 - 1) mod 2 ^ 64)%N with 255%N.
  rewrite parseDigits_octal by lia.
  fold (octalValue (String c q)).
  assert (all_bytes isOctal (String c q)
          && (octalValue (String c q) <=? 255)%N = false) as ->.
  { destruct Hbad as [-> | Hbig]; [reflexivity|].
    destruct (N.leb_spec (octalValue (String c q)) 255); [lia|].
    apply andb_false_r. }
  destruct (strconv.parseDigits 8 cutoff8 255 (String c q) 0); eauto.
Qed.

Lemma byte_of_small (v : N) : (v <= 255)%N -> byte_of v = ascii_of_N v.
Proof. intros Hv. unfold byte_of. now rewrite N.mod_small by lia. Qed.

(** C1 (amended). The unescaper reads the path byte by byte.  A byte
    other than a backslash is copied unchanged.  A backslash introduces an
    escape of exactly four base-8 digits, five bytes in all, which yields
    the one byte whose value the digits denote; a backslash followed by
    fewer than four bytes, or by four bytes that are not all base-8 digits
    or denote more than 377 octal, is an error. *)
Theorem unescapeFilepath_octal4 :
  unescapeFilepath "" = Ok ""
  /\ (forall c rest, c <> "\"%char ->
        unescapeFilepath (String c rest)
        = rmap (String c) (unescapeFilepath rest))
  /\ (forall rest, String.length rest < 4 ->
        unescapeFilepath (String "\" rest) = Err OctalTooShort)
  /\ (forall q rest, String.length q = 4 ->
        all_bytes isOctal q = true -> (octalValue q <= 255)%N ->
        unescapeFilepath (String "\" (q ++ rest))
        = rmap (String (ascii_of_N (octalValue q))) (unescapeFilepath rest))
  /\ (forall q rest, String.length q = 4 ->
        all_bytes isOctal q = false \/ (255 < octalValue q)%N ->
        exists e, unescapeFilepath (String "\" (q ++ rest))
                  = Err (OctalInvalid e)).
Proof.
  split; [exact unescapeFilepath_nil|].
  split; [exact unescapeFilepath_plain|].
  split; [exact unescapeFilepath_short|].
  split.
  - intros q rest Hq Hall Hv.
    rewrite unescapeFilepath_escape by exact Hq.
    rewrite ParseUint_octal_ok; [|destruct q; [discriminate | congruence]|exact Hall|exact Hv].
    now rewrite byte_of_small.
  - intros q rest Hq Hbad.
    rewrite unescapeFilepath_escape by exact Hq.
    destruct (ParseUint_octal_bad q Hbad) as [e ->]. eauto.
Qed.

Lemma unescapeFilepath_octal4_witness :
  unescapeFilepath "a\0040b" = Ok "a b"
  /\ unescapeFilepath "a\04" = Err OctalTooShort
  /\ exists e, unescapeFilepath "\0400" = Err (OctalInvalid e).
Proof.
  destruct unescapeFilepath_octal4 as (Hnil & Hplain & Hshort & Hesc & Hbad).
  split; [|split].
  - rewrite (Hplain "a"%char) by discriminate.
    change "\0040b" with (String "\" ("0040" ++ "b")).
    rewrite (Hesc "0040" "b") by (vm_compute; first [reflexivity | discriminate]).
    rewrite (Hplain "b"%char) by discriminate.
    rewrite Hnil. reflexivity.
  - rewrite (Hplain "a"%char) by discriminate.
    rewrite (Hshort "04") by (simpl; lia). reflexivity.
  - change "\0400" with (String "\" ("0400" ++ "")).
    apply (Hbad "0400" ""); [reflexivity | right; vm_compute; reflexivity].
Defined.

(** C1, as stated, fails: a backslash and three octal digits, the escape
    of a space, is rejected as too short instead of being decoded. *)
Lemma unescapeFilepath_three_digits_rejected :
  unescapeFilepath "\040" = Err OctalTooShort
  /\ unescapeFilepath "\040" <> Ok " ".
Proof. split; [vm_compute; reflexivity | vm_compute; discriminate]. Qed.

(** C8. On a path that holds no backslash, unescaping succeeds and
    returns the path unchanged. *)
Theorem unescapeFilepath_no_backslash (path : string) :
  contains_byte "\" path = false -> unescapeFilepath path = Ok path.
Proof.
  induction path as [|c path IH]; intros Hno.
  - exact unescapeFilepath_nil.
  - simpl in Hno. apply orb_false_elim in Hno as [Hc Hrest].
    apply bool_decide_eq_false in Hc.
    rewrite unescapeFilepath_plain by exact Hc.
    now rewrite IH.
Qed.

Lemma unescapeFilepath_no_backslash_witness :
  contains_byte "\" "/pool/bar/hello.txt" = false
  /\ unescapeFilepath "/pool/bar/hello.txt" = Ok "/pool/bar/hello.txt".
Proof.
  split; [reflexivity|].
  apply unescapeFilepath_no_backslash. reflexivity.
Defined.

(** ** [Atoi] on a sign followed by digits *)

Lemma digitVal_decimal (c : ascii) :
  isDigit c = true -> strconv.digitVal c = Some (digitOf c) /\ (digitOf c < 10)%N.
Proof.
  destruct c as [[] [] [] [] [] [] [] []]; vm_compute; intros H;
    first [discriminate H | split; reflexivity].
Qed.

Lemma decimalValue_from_le (s : string) (n : N) :
  (n <= decimalValue_from n s)%N.
Proof.
  revert n. induction s as [|c s IH]; intros n; simpl; [lia|].
  specialize (IH (n * 10 + digitOf c)%N). lia.
Qed.

Lemma parseDigits_decimal (maxVal : N) (s : string) (n : N) :
  (maxVal < 2 ^ 64)%N -> (n <= maxVal)%N -> all_bytes isDigit s = true ->
  strconv.parseDigits 10 cutoff10 maxVal s n
  = if (decimalValue_from n s <=? maxVal)%N
    then inr (decimalValue_from n s) else inl ErrRange.
Proof.
  intros Hmax. revert n. induction s as [|c s IH]; intros n Hn Hall.
  - simpl. destruct (N.leb_spec n maxVal); [reflexivity | lia].
  - simpl in Hall. apply andb_prop in Hall as [Hc Hall].
    destruct (digitVal_decimal c Hc) as [Hd Hlt].
    simpl. rewrite Hd.
    destruct (N.leb_spec 10 (digitOf c)); [lia|].
    pose proof (decimalValue_from_le s (n * 10 + digitOf c)) as Hmono.
    change (2 ^ 64)%N with 18446744073709551616%N in *.
    unfold cutoff10 at 1.
    change (strconv.maxUint64 / 10 + 1)%N with 1844674407370955162%N.
    destruct (N.leb_spec 1844674407370955162 n).
    { destruct (N.leb_spec (decimalValue_from (n * 10 + digitOf c) s) maxVal);
        [lia | reflexivity]. }
    rewrite (N.mod_small (n * 10)) by lia.
    destruct (N.lt_ge_cases (n * 10 + digitOf c) 18446744073709551616) as [Hfit|Hwrap].
    + rewrite (N.mod_small (n * 10 + digitOf c)) by lia.
      destruct (N.ltb_spec (n * 10 + digitOf c) (n * 10)); [lia|]. simpl.
      destruct (N.ltb_spec maxVal (n * 10 + digitOf c)).
      * destruct (N.leb_spec (decimalValue_from (n * 10 + digitOf c) s) maxVal);
          [lia | reflexivity].
      * apply IH; [lia | exact Hall].
    + assert (Hm : ((n * 10 + digitOf c) mod 18446744073709551616
                    = n * 10 + digitOf c - 18446744073709551616)%N).
      { symmetry. apply (N.mod_unique _ _ 1); lia. }
      rewrite Hm.
      destruct (N.ltb_spec (n * 10 + digitOf c - 18446744073709551616) (n * 10));
        [|lia]. simpl.
      destruct (N.leb_spec (decimalValue_from (n * 10 + digitOf c) s) maxVal);
        [lia | reflexivity].
Qed.

Lemma Atoi_annotation (w : strconv.WordSize) (sg : ascii) (ds : string) :
  isSign sg = true -> ds <> "" -> all_bytes isDigit ds = true ->
  strconv.Atoi w (String sg ds)
  = if fitsInt w (signedValue sg (decimalValue ds))
    then inr (signedValue sg (decimalValue ds))
    else inl (mkNumError "Atoi" (String sg ds) ErrRange).
Proof.
  intros Hsg Hds Hall. unfold strconv.Atoi, strconv.ParseInt10.
  assert (Hs : (if bool_decide (sg = "+"%char) || bool_decide (sg = "-"%char)
                then ds else String sg ds) = ds).
  { unfold isSign in Hsg. now rewrite Hsg. }
  rewrite Hs. unfold strconv.ParseUint.
  destruct ds as [|d ds]; [congruence|].
  change (strconv.maxUint64 / 10 + 1)%N with cutoff10.
  rewrite parseDigits_decimal; [| destruct w; vm_compute; reflexivity | apply N.le_0_l | exact Hall].
  fold (decimalValue (String d ds)).
  set (m := decimalValue (String d ds)).
  unfold fitsInt, signedValue, minInt, maxInt.
  destruct w; simpl strconv.IntSize;
    [change ((2 ^ 32 - 1) mod 2 ^ 64)%N with 4294967295%N;
     change (2 ^ (32 - 1))%N with 2147483648%N;
     change (2 ^ (Z.of_N 32 - 1))%Z with 2147483648%Z
    |change ((2 ^ 64 - 1) mod 2 ^ 64)%N with 18446744073709551615%N;
     change (2 ^ (64 - 1))%N with 9223372036854775808%N;
     change (2 ^ (Z.of_N 64 - 1))%Z with 9223372036854775808%Z];
    destruct (bool_decide (sg = "-"%char)); simpl negb; simpl andb;
    repeat match goal with
           | |- context [(?a <=? ?b)%N] => destruct (N.leb_spec a b)
           | |- context [(?a <? ?b)%N] => destruct (N.ltb_spec a b)
           | |- context [(?a <=? ?b)%Z] => destruct (Z.leb_spec a b)
           end; simpl; try reflexivity; try lia.
Qed.

(** ** The reference-count expression *)

Lemma spanDigits_spec (s ds r : string) :
  spanDigits s = (ds, r) ->
  s = ds ++ r /\ all_bytes isDigit ds = true /\ stopsDigits r.
Proof.
  revert ds r. induction s as [|c s IH]; intros ds r; simpl.
  - intros [= <- <-]. repeat split.
  - destruct (isDigit c) eqn:Hc.
    + destruct (spanDigits s) as [ds' r'] eqn:Hs. intros [= <- <-].
      destruct (IH ds' r' eq_refl) as (-> & Hall & Hstop).
      rewrite string_app_cons. simpl. rewrite Hc, Hall. repeat split. exact Hstop.
    + intros [= <- <-]. repeat split. exact Hc.
Qed.

Lemma spanDigits_app (ds r : string) :
  all_bytes isDigit ds = true -> stopsDigits r -> spanDigits (ds ++ r) = (ds, r).
Proof.
  intros Hall Hstop. induction ds as [|c ds IH].
  - rewrite string_app_nil_l. destruct r as [|c r]; simpl; [reflexivity|].
    simpl in Hstop. now rewrite Hstop.
  - simpl in Hall. apply andb_prop in Hall as [Hc Hall].
    rewrite string_app_cons. simpl. rewrite Hc, (IH Hall). reflexivity.
Qed.

Lemma matchHere_Some (s g : string) :
  matchHere s = Some g <->
  exists sg ds post,
    isAnnotation sg ds /\ s = annotation sg ds ++ post /\ g = String sg ds.
Proof.
  split.
  - destruct s as [|p [|sg rest]]; simpl; try discriminate.
    destruct (bool_decide (p = "("%char)) eqn:Hp; simpl; [|discriminate].
    destruct (isSign sg) eqn:Hsg; [|discriminate].
    destruct (spanDigits rest) as [ds r] eqn:Hspan.
    destruct ds as [|d ds]; [discriminate|].
    destruct r as [|q post]; [discriminate|].
    destruct (bool_decide (q = ")"%char)) eqn:Hq; [|discriminate].
    intros [= <-].
    apply bool_decide_eq_true in Hp, Hq. subst p q.
    destruct (spanDigits_spec _ _ _ Hspan) as (-> & Hall & _).
    exists sg, (String d ds), post. split; [|split].
    + repeat split; [exact Hsg | discriminate | exact Hall].
    + unfold annotation. rewrite !string_app_cons, string_app_assoc.
      reflexivity.
    + reflexivity.
  - intros (sg & ds & post & (Hsg & Hne & Hall) & -> & ->).
    unfold annotation. rewrite !string_app_cons, string_app_assoc.
    rewrite string_app_cons, string_app_nil_l.
    simpl. rewrite Hsg. simpl.
    rewrite (spanDigits_app ds (String ")" post) Hall) by reflexivity.
    destruct ds as [|d ds]; [congruence | reflexivity].
Qed.

Lemma annotatedAt_0 (f : string) (sg : ascii) (ds : string) :
  annotatedAt f 0 sg ds <-> matchHere f = Some (String sg ds).
Proof.
  rewrite matchHere_Some. split.
  - intros (Han & pre & post & -> & Hlen).
    destruct pre; [|discriminate]. rewrite string_app_nil_l.
    exists sg, ds, post. auto.
  - intros (sg' & ds' & post & Han & -> & [= <- <-]).
    split; [exact Han|]. exists "", post. split; reflexivity.
Qed.

Lemma annotatedAt_S (c : ascii) (f : string) (k : nat) (sg : ascii) (ds : string) :
  annotatedAt (String c f) (S k) sg ds <-> annotatedAt f k sg ds.
Proof.
  split; intros (Han & pre & post & Heq & Hlen); (split; [exact Han|]).
  - destruct pre as [|c' pre]; [discriminate|].
    rewrite string_app_cons in Heq. injection Heq as -> ->.
    exists pre, post. split; [reflexivity | simpl in Hlen; lia].
  - subst f. exists (String c pre), post. split; [reflexivity | simpl; lia].
Qed.

Lemma annotatedAt_nil (k : nat) (sg : ascii) (ds : string) :
  ~ annotatedAt "" k sg ds.
Proof.
  intros (_ & pre & post & Heq & _). destruct pre; discriminate.
Qed.

Lemma matchHere_group (s g : string) :
  matchHere s = Some g -> exists sg ds, g = String sg ds.
Proof. rewrite matchHere_Some. intros (sg & ds & _ & _ & _ & ->). eauto. Qed.

Lemma FindStringSubmatch_None (f : string) :
  FindStringSubmatch f = None <-> forall k sg ds, ~ annotatedAt f k sg ds.
Proof.
  induction f as [|c f IH].
  - simpl. split; [intros _ k sg ds; apply annotatedAt_nil | reflexivity].
  - cbn [FindStringSubmatch].
    destruct (matchHere (String c f)) as [g|] eqn:Hm.
    + split; [discriminate|]. intros Hno. exfalso.
      destruct (matchHere_group _ _ Hm) as (sg & ds & ->).
      apply (Hno 0 sg ds). now apply annotatedAt_0.
    + rewrite IH. split.
      * intros Hno [|k] sg ds.
        -- rewrite annotatedAt_0, Hm. discriminate.
        -- rewrite annotatedAt_S. apply Hno.
      * intros Hno k sg ds Hat. apply (Hno (S k) sg ds).
        now apply annotatedAt_S.
Qed.

Lemma FindStringSubmatch_Some (f g : string) :
  FindStringSubmatch f = Some g <->
  exists sg ds, g = String sg ds /\ leftmostAnnotation f sg ds.
Proof.
  revert g. induction f as [|c f IH]; intros g.
  - simpl. split; [discriminate|].
    intros (sg & ds & _ & k & Hat & _). now apply annotatedAt_nil in Hat.
  - cbn [FindStringSubmatch].
    destruct (matchHere (String c f)) as [g0|] eqn:Hm.
    + split.
      * intros [= <-]. destruct (matchHere_group _ _ Hm) as (sg & ds & ->).
        exists sg, ds. split; [reflexivity|]. exists 0.
        split; [now apply annotatedAt_0 | intros; lia].
      * intros (sg & ds & -> & [|k] & Hat & Hleft).
        -- apply annotatedAt_0 in Hat. congruence.
        -- exfalso. destruct (matchHere_group _ _ Hm) as (sg0 & ds0 & ->).
           apply (Hleft 0 sg0 ds0); [lia | now apply annotatedAt_0].
    + rewrite IH. split.
      * intros (sg & ds & -> & k & Hat & Hleft).
        exists sg, ds. split; [reflexivity|]. exists (S k). split.
        -- now apply annotatedAt_S.
        -- intros [|k'] sg' ds' Hlt.
           ++ rewrite annotatedAt_0, Hm. discriminate.
           ++ rewrite annotatedAt_S. apply Hleft. lia.
      * intros (sg & ds & -> & [|k] & Hat & Hleft).
        -- apply annotatedAt_0 in Hat. congruence.
        -- exists sg, ds. split; [reflexivity|]. exists k. split.
           ++ exact (proj1 (annotatedAt_S _ _ _ _ _) Hat).
           ++ intros k' sg' ds' Hlt Hat'. apply (Hleft (S k') sg' ds'); [lia|].
              now apply annotatedAt_S.
Qed.

Lemma leftmostAnnotation_isAnnotation (f : string) (sg : ascii) (ds : string) :
  leftmostAnnotation f sg ds -> isAnnotation sg ds.
Proof. intros (k & (Han & _) & _). exact Han. Qed.

Lemma parseReferenceCount_leftmost (w : strconv.WordSize) (f : string)
    (sg : ascii) (ds : string) :
  leftmostAnnotation f sg ds ->
  parseReferenceCount w f
  = if fitsInt w (signedValue sg (decimalValue ds))
    then Ok (signedValue sg (decimalValue ds))
    else Err (AtoiFailed (mkNumError "Atoi" (String sg ds) ErrRange)).
Proof.
  intros Hleft. unfold parseReferenceCount.
  assert (Hfind : FindStringSubmatch f = Some (String sg ds)).
  { apply FindStringSubmatch_Some. eauto. }
  rewrite Hfind.
  destruct (leftmostAnnotation_isAnnotation _ _ _ Hleft) as (Hsg & Hne & Hall).
  rewrite Atoi_annotation by assumption.
  now destruct (fitsInt w _).
Qed.

Lemma parseReferenceCount_none (w : strconv.WordSize) (f : string) :
  (forall k sg ds, ~ annotatedAt f k sg ds) ->
  parseReferenceCount w f = Err RegexpNoMatch.
Proof.
  intros Hno. unfold parseReferenceCount.
  now rewrite (proj2 (FindStringSubmatch_None f) Hno).
Qed.

Lemma annotation_dichotomy (f : string) :
  (exists sg ds, leftmostAnnotation f sg ds)
  \/ (forall k sg ds, ~ annotatedAt f k sg ds).
Proof.
  destruct (FindStringSubmatch f) as [g|] eqn:Hf.
  - left. apply FindStringSubmatch_Some in Hf as (sg & ds & _ & H). eauto.
  - right. now apply FindStringSubmatch_None.
Qed.

(** ** [unescapeFilepath] always returns *)

Lemma unescapeFilepath_returns (n : nat) : forall path : string,
  String.length path <= n ->
  (exists r, unescapeFilepath path = Ok r /\ (path <> "" -> r <> ""))
  \/ (exists e, unescapeFilepath path = Err e).
Proof.
  induction n as [|n IH]; intros path Hlen.
  - destruct path; [|simpl in Hlen; lia]. left. exists "". now split.
  - destruct path as [|c rest]; [left; exists ""; now split|].
    simpl in Hlen. destruct (decide (c = "\"%char)) as [->|Hc].
    + destruct (decide (String.length rest < 4)) as [Hs|Hs].
      { right. eexists. now apply unescapeFilepath_short. }
      destruct rest as [|a [|b [|c [|d rest]]]]; simpl in Hs, Hlen; try lia.
      change (String "\" (String a (String b (String c (String d rest)))))
        with (String "\" (String a (String b (String c (String d ""))) ++ rest)).
      rewrite unescapeFilepath_escape by reflexivity.
      destruct (strconv.ParseUint _ 8 8) as [e|val]; [right; eauto|].
      destruct (IH rest ltac:(lia)) as [(r & -> & _)|(e & ->)].
      * left. eexists. split; [reflexivity | discriminate].
      * right. eauto.
    + rewrite unescapeFilepath_plain by exact Hc.
      destruct (IH rest ltac:(lia)) as [(r & -> & _)|(e & ->)].
      * left. eexists. split; [reflexivity | discriminate].
      * right. eauto.
Qed.

Lemma unescapeFilepath_no_panic (path : string) : unescapeFilepath path <> Panic.
Proof.
  destruct (unescapeFilepath_returns _ path (le_n _)) as [(r & -> & _)|(e & ->)];
    discriminate.
Qed.

Lemma unescapeFilepath_nonempty (path r : string) :
  unescapeFilepath path = Ok r -> path <> "" -> r <> "".
Proof.
  intros Hok Hne.
  destruct (unescapeFilepath_returns _ path (le_n _)) as [(r' & Hr & Hn)|(e & He)];
    [|congruence].
  rewrite Hr in Hok. injection Hok as <-. auto.
Qed.

(** ** The code tables *)

Lemma changeTypeMap_Some (code : string) (ct : ChangeType) :
  changeTypeMap !! code = Some ct <->
  (code = "-" /\ ct = Removed) \/ (code = "+" /\ ct = Created)
  \/ (code = "M" /\ ct = Modified) \/ (code = "R" /\ ct = Renamed).
Proof.
  unfold changeTypeMap. rewrite !lookup_insert_Some, lookup_empty.
  split.
  - intros [[<- <-]|[_ [[<- <-]|[_ [[<- <-]|[_ [[<- <-]|[_ ?]]]]]]]];
      try discriminate; auto.
  - intros [[-> ->]|[[-> ->]|[[-> ->]|[-> ->]]]].
    + left; auto.
    + right; split; [discriminate|]. left; auto.
    + right; split; [discriminate|]. right; split; [discriminate|]. left; auto.
    + right; split; [discriminate|]. right; split; [discriminate|].
      right; split; [discriminate|]. left; auto.
Qed.

Lemma changeTypeMap_known (code : string) (ct : ChangeType) :
  changeTypeMap !! code = Some ct -> ct <> UnknownChange.
Proof.
  rewrite changeTypeMap_Some.
  intros [[_ ->]|[[_ ->]|[[_ ->]|[_ ->]]]]; discriminate.
Qed.

Lemma inodeTypeMap_known (code : string) (ty : InodeType) :
  inodeTypeMap !! code = Some ty -> ty <> UnknownInode.
Proof.
  unfold inodeTypeMap. rewrite !lookup_insert_Some, lookup_empty.
  intros H ->.
  repeat match type of H with
         | _ \/ _ => destruct H as [[_ H]|[_ H]]; [discriminate H|]
         end.
  discriminate H.
Qed.

(** ** The stages of [parseInodeChange] *)

Section DiffStages.

Variable w : strconv.WordSize.

Lemma checkFieldCount_spec (ct : ChangeType) (n : nat) :
  (requiredFields ct n /\ checkFieldCount ct n = Ok tt)
  \/ (~ requiredFields ct n
      /\ exists expect, checkFieldCount ct n = Err (MismatchFields expect n)).
Proof.
  destruct ct; simpl; repeat case_bool_decide; simpl;
    first [left; split; [lia | reflexivity]
          | right; split; [lia | eauto]].
Qed.

Lemma parseInodeChange_empty : parseInodeChange w [] = Err EmptyLine.
Proof. reflexivity. Qed.

Lemma parseInodeChange_unknown_change (code : string) (rest : list string) :
  changeTypeMap !! code = None ->
  parseInodeChange w (code :: rest) = Err (UnknownChangeType code).
Proof.
  intros Hc. unfold parseInodeChange, index, lookup0. simpl.
  rewrite Hc. reflexivity.
Qed.

(** A known change code leads to the field-count check. *)
Lemma parseInodeChange_known (code : string) (rest : list string)
    (ct : ChangeType) :
  changeTypeMap !! code = Some ct ->
  parseInodeChange w (code :: rest)
  = rbind (checkFieldCount ct (S (length rest))) (fun _ =>
    rbind (index (code :: rest) 1) (fun l1 =>
    let inodeType := lookup0 UnknownInode inodeTypeMap l1 in
    if bool_decide (inodeType = UnknownInode) then Err (UnknownInodeType l1)
    else
    rbind (index (code :: rest) 2) (fun l2 =>
    match unescapeFilepath l2 with
    | Panic => Panic
    | Err e => Err (FailedFilename e)
    | Ok path =>
        rbind (parseExtra w ct (code :: rest)) (fun extra =>
        Ok {| Change := ct; IType := inodeType; Path := path;
              NewPath := fst extra; ReferenceCountChange := snd extra |})
    end))).
Proof.
  intros Hc. pose proof (changeTypeMap_known _ _ Hc) as Hk.
  assert (Hl : lookup0 UnknownChange changeTypeMap code = ct).
  { unfold lookup0. now rewrite Hc. }
  unfold parseInodeChange. simpl length.
  rewrite bool_decide_eq_false_2 by lia.
  unfold index at 1. simpl lookup. unfold rbind at 1.
  rewrite Hl. rewrite (bool_decide_eq_false_2 _ Hk). reflexivity.
Qed.

Lemma parseInodeChange_bad_count (code : string) (rest : list string)
    (ct : ChangeType) :
  changeTypeMap !! code = Some ct ->
  ~ requiredFields ct (S (length rest)) ->
  exists expect,
    parseInodeChange w (code :: rest)
    = Err (MismatchFields expect (S (length rest))).
Proof.
  intros Hc Hbad. rewrite (parseInodeChange_known _ _ _ Hc).
  destruct (checkFieldCount_spec ct (S (length rest)))
    as [[Hok _]|[_ [expect ->]]]; [contradiction|].
  exists expect. reflexivity.
Qed.

(** Past the field-count check with a known inode code. *)
Lemma parseInodeChange_fields (code l1 l2 : string) (rest : list string)
    (ct : ChangeType) (ty : InodeType) :
  changeTypeMap !! code = Some ct ->
  requiredFields ct (3 + length rest) ->
  inodeTypeMap !! l1 = Some ty ->
  parseInodeChange w (code :: l1 :: l2 :: rest)
  = match unescapeFilepath l2 with
    | Panic => Panic
    | Err e => Err (FailedFilename e)
    | Ok path =>
        rbind (parseExtra w ct (code :: l1 :: l2 :: rest)) (fun extra =>
        Ok {| Change := ct; IType := ty; Path := path;
              NewPath := fst extra; ReferenceCountChange := snd extra |})
    end.
Proof.
  intros Hc Hreq Hty. rewrite (parseInodeChange_known _ _ _ Hc).
  destruct (checkFieldCount_spec ct (S (length (l1 :: l2 :: rest))))
    as [[_ ->]|[Hbad _]]; [|simpl in Hbad; contradiction].
  assert (Hl : lookup0 UnknownInode inodeTypeMap l1 = ty).
  { unfold lookup0. now rewrite Hty. }
  unfold rbind at 1. unfold index at 1. simpl lookup. unfold rbind at 1.
  rewrite Hl.
  rewrite (bool_decide_eq_false_2 _ (inodeTypeMap_known _ _ Hty)).
  reflexivity.
Qed.

Lemma parseInodeChange_unknown_inode (code l1 l2 : string)
    (rest : list string) (ct : ChangeType) :
  changeTypeMap !! code = Some ct ->
  requiredFields ct (3 + length rest) ->
  inodeTypeMap !! l1 = None ->
  parseInodeChange w (code :: l1 :: l2 :: rest) = Err (UnknownInodeType l1).
Proof.
  intros Hc Hreq Hty. rewrite (parseInodeChange_known _ _ _ Hc).
  destruct (checkFieldCount_spec ct (S (length (l1 :: l2 :: rest))))
    as [[_ ->]|[Hbad _]]; [|simpl in Hbad; contradiction].
  assert (Hl : lookup0 UnknownInode inodeTypeMap l1 = UnknownInode).
  { unfold lookup0. now rewrite Hty. }
  unfold rbind at 1. unfold index at 1. simpl lookup. unfold rbind at 1.
  rewrite Hl. reflexivity.
Qed.

Lemma requiredFields_ge3 (ct : ChangeType) (n : nat) :
  requiredFields ct n -> 3 <= n.
Proof. destruct ct; simpl; lia. Qed.

Lemma parseExtra_no_panic (ct : ChangeType) (line : list string) :
  requiredFields ct (length line) -> parseExtra w ct line <> Panic.
Proof.
  intros Hreq. destruct ct; simpl in *; try discriminate.
  - case_bool_decide as H4; [|discriminate].
    destruct line as [|a [|b [|c [|d rest]]]]; simpl in H4; try lia.
    unfold index; simpl. unfold parseReferenceCount.
    destruct (FindStringSubmatch d); [|discriminate].
    destruct (strconv.Atoi w s); discriminate.
  - destruct line as [|a [|b [|c [|d rest]]]]; simpl in Hreq; try lia.
    unfold index; simpl.
    pose proof (unescapeFilepath_no_panic d).
    destruct (unescapeFilepath d); congruence.
Qed.

Lemma parseInodeChange_no_panic (line : list string) :
  parseInodeChange w line <> Panic.
Proof.
  destruct line as [|code rest]; [discriminate|].
  destruct (changeTypeMap !! code) as [ct|] eqn:Hc.
  2:{ rewrite parseInodeChange_unknown_change by exact Hc. discriminate. }
  destruct (checkFieldCount_spec ct (S (length rest)))
    as [[Hreq _]|[Hbad _]].
  2:{ destruct (parseInodeChange_bad_count _ _ _ Hc Hbad) as [e ->].
      discriminate. }
  pose proof (requiredFields_ge3 _ _ Hreq) as Hge.
  destruct rest as [|l1 [|l2 rest]]; simpl in Hge; try lia.
  destruct (inodeTypeMap !! l1) as [ty|] eqn:Hty.
  2:{ rewrite (parseInodeChange_unknown_inode _ _ _ _ _ Hc Hreq Hty).
      discriminate. }
  rewrite (parseInodeChange_fields _ _ _ _ _ _ Hc Hreq Hty).
  pose proof (unescapeFilepath_no_panic l2).
  destruct (unescapeFilepath l2); try congruence.
  pose proof (parseExtra_no_panic ct (code :: l1 :: l2 :: rest) Hreq).
  destruct (parseExtra w ct _); simpl; congruence.
Qed.

End DiffStages.

(** ** Fields are never empty *)

Lemma push_nonempty (buf : string) (c : ascii) : push buf c <> "".
Proof. unfold push. destruct buf; discriminate. Qed.

Lemma Fields_from_nonempty (s : string) : forall skip cur,
  (forall f, cur = Some f -> f <> "") ->
  Forall (fun f => f <> "") (Fields_from skip cur s).
Proof.
  induction s as [|c s IH]; intros skip cur Hcur.
  - simpl. destruct cur as [f|]; simpl; [|constructor].
    constructor; [now apply Hcur | constructor].
  - cbn [Fields_from]. destruct skip as [|k]; [|now apply IH].
    destruct (spaceWidth (String c s)) as [|k].
    + apply IH. intros f [= <-]. apply push_nonempty.
    + apply Forall_app. split.
      * destruct cur as [f|]; simpl; [|constructor].
        constructor; [now apply Hcur | constructor].
      * apply IH. discriminate.
Qed.

Lemma Fields_nonempty (s : string) : Forall (fun f => f <> "") (Fields s).
Proof. apply Fields_from_nonempty. discriminate. Qed.

(** ** What a parsed row is made of *)

Section DiffRows.

Variable w : strconv.WordSize.

Lemma parseExtra_err (ct : ChangeType) (line : list string) (e : error) :
  parseExtra w ct line = Err e ->
  (exists e', e = FailedFilename e') \/ (exists e', e = FailedReferenceCount e').
Proof.
  destruct ct; simpl; try discriminate.
  - case_bool_decide; [|discriminate].
    unfold index; destruct (line !! 3) as [l3|]; simpl; try discriminate.
    destruct (parseReferenceCount w l3); try discriminate.
    intros [= <-]. eauto.
  - unfold index; destruct (line !! 3) as [l3|]; simpl; try discriminate.
    destruct (unescapeFilepath l3); try discriminate.
    intros [= <-]. eauto.
Qed.

Lemma parseExtra_defaults (ct : ChangeType) (line : list string)
    (extra : string * Z) :
  parseExtra w ct line = Ok extra ->
  (ct <> Renamed -> fst extra = "")
  /\ (ct <> Modified \/ length line <> 4 -> snd extra = 0%Z).
Proof.
  destruct ct; simpl; try (intros [= <-]; split; reflexivity).
  - case_bool_decide as H4.
    + unfold index; destruct (line !! 3) as [l3|]; simpl; try discriminate.
      destruct (parseReferenceCount w l3); try discriminate.
      intros [= <-]. split; [reflexivity|]. intros [?|?]; congruence.
    + intros [= <-]. split; reflexivity.
  - unfold index; destruct (line !! 3) as [l3|]; simpl; try discriminate.
    destruct (unescapeFilepath l3); try discriminate.
    intros [= <-]. split; [congruence | reflexivity].
Qed.

Lemma parseInodeChange_Ok_inv (line : list string) (c : InodeChange) :
  parseInodeChange w line = Ok c ->
  exists code l1 l2 rest ct ty path extra,
    line = code :: l1 :: l2 :: rest
    /\ changeTypeMap !! code = Some ct
    /\ requiredFields ct (length line)
    /\ inodeTypeMap !! l1 = Some ty
    /\ unescapeFilepath l2 = Ok path
    /\ parseExtra w ct line = Ok extra
    /\ c = {| Change := ct; IType := ty; Path := path;
              NewPath := fst extra; ReferenceCountChange := snd extra |}.
Proof.
  intros Hok. destruct line as [|code rest]; [discriminate|].
  destruct (changeTypeMap !! code) as [ct|] eqn:Hc.
  2:{ rewrite parseInodeChange_unknown_change in Hok by exact Hc.
      discriminate. }
  destruct (checkFieldCount_spec ct (S (length rest)))
    as [[Hreq _]|[Hbad _]].
  2:{ destruct (parseInodeChange_bad_count w _ _ _ Hc Hbad) as [e He].
      congruence. }
  pose proof (requiredFields_ge3 _ _ Hreq) as Hge.
  destruct rest as [|l1 [|l2 rest]]; simpl in Hge; try lia.
  destruct (inodeTypeMap !! l1) as [ty|] eqn:Hty.
  2:{ rewrite (parseInodeChange_unknown_inode w _ _ _ _ _ Hc Hreq Hty) in Hok.
      discriminate. }
  rewrite (parseInodeChange_fields w _ _ _ _ _ _ Hc Hreq Hty) in Hok.
  destruct (unescapeFilepath l2) as [path| |] eqn:Hp; try discriminate.
  destruct (parseExtra w ct _) as [extra| |] eqn:Hx; try discriminate.
  simpl in Hok. injection Hok as <-.
  exists code, l1, l2, rest, ct, ty, path, extra. repeat split; auto.
Qed.

Lemma parseInodeChange_modified4 (code ityp p f : string) (ty : InodeType)
    (path : string) :
  changeTypeMap !! code = Some Modified ->
  inodeTypeMap !! ityp = Some ty ->
  unescapeFilepath p = Ok path ->
  parseInodeChange w [code; ityp; p; f]
  = match parseReferenceCount w f with
    | Ok rc => Ok (mkInodeChange Modified ty path "" rc)
    | Err e => Err (FailedReferenceCount e)
    | Panic => Panic
    end.
Proof.
  intros Hc Hty Hp.
  rewrite (parseInodeChange_fields w code ityp p [f] Modified ty Hc
             (or_intror eq_refl) Hty).
  rewrite Hp. simpl. unfold index. simpl.
  now destruct (parseReferenceCount w f).
Qed.

End DiffRows.

(** As stated, C3 fails: a Renamed row of four fields whose 4th field is
    empty has the right count and a known inode code, and is parsed, on
    both word sizes, into a change whose secondary path is empty. *)
Lemma renamed_empty_secondary_path :
  changeTypeMap !! "R" = Some Renamed
  /\ length ["R"; "F"; "/a"; ""] = 4
  /\ forall w,
       parseInodeChange w ["R"; "F"; "/a"; ""]
       = Ok (mkInodeChange Renamed File "/a" "" 0)
       /\ ~ (forall c, parseInodeChange w ["R"; "F"; "/a"; ""] = Ok c ->
                       NewPath c <> "").
Proof.
  split; [vm_compute; reflexivity|]. split; [reflexivity|].
  intros w.
  assert (H : parseInodeChange w ["R"; "F"; "/a"; ""]
              = Ok (mkInodeChange Renamed File "/a" "" 0))
    by (destruct w; vm_compute; reflexivity).
  split; [exact H|].
  intros Hall. exact (Hall _ H eq_refl).
Qed.

(** C3 (amended). For every row whose first field is a known change-type
    code, the field count is checked against the change type before any
    other field is looked at: whatever the other fields are, the row fails
    with the field-count error exactly when the count is wrong (a Renamed
    row needs 4 fields, a Modified row 3 or 4, any other row 3), a row with
    the right count never fails with that error, and a row that parses has
    the right count.  The secondary path of a Renamed row that parses is
    its 4th field unescaped, and it is empty exactly when that field is
    empty: the parser accepts an empty 4th field.  A row read by the
    tokenizer has no empty field, so there the secondary path is not
    empty. *)
Theorem parseInodeChange_field_count (w : strconv.WordSize) (code : string)
    (rest : list string) (ct : ChangeType) :
  changeTypeMap !! code = Some ct ->
  (~ requiredFields ct (length (code :: rest)) ->
     exists expect, parseInodeChange w (code :: rest)
                    = Err (MismatchFields expect (length (code :: rest))))
  /\ (requiredFields ct (length (code :: rest)) ->
        ~ isMismatch (parseInodeChange w (code :: rest)))
  /\ (forall c, parseInodeChange w (code :: rest) = Ok c ->
        Change c = ct /\ requiredFields ct (length (code :: rest)))
  /\ (ct = Renamed -> forall c,
        parseInodeChange w (code :: rest) = Ok c ->
        exists ityp p np,
          rest = [ityp; p; np]
          /\ unescapeFilepath np = Ok (NewPath c)
          /\ (NewPath c = "" <-> np = ""))
  /\ (ct = Renamed -> forall raw c,
        code :: rest = Fields raw ->
        parseInodeChange w (code :: rest) = Ok c -> NewPath c <> "").
Proof.
  intros Hc.
  assert (Hren : ct = Renamed -> forall c,
            parseInodeChange w (code :: rest) = Ok c ->
            exists ityp p np,
              rest = [ityp; p; np]
              /\ unescapeFilepath np = Ok (NewPath c)
              /\ (NewPath c = "" <-> np = "")).
  { intros -> c Hok.
    destruct (parseInodeChange_Ok_inv w _ _ Hok)
      as (code' & l1 & l2 & rest' & ct' & ty & path & extra
          & Hline & Hc' & Hreq & _ & _ & Hx & ->).
    injection Hline as <- ->. rewrite Hc in Hc'. injection Hc' as <-.
    simpl in Hreq. destruct rest' as [|l3 [|? ?]]; simpl in Hreq; try lia.
    simpl in Hx. unfold index in Hx. simpl in Hx.
    destruct (unescapeFilepath l3) as [np| |] eqn:Hnp; try discriminate.
    injection Hx as <-. simpl.
    exists l1, l2, l3. split; [reflexivity|]. split; [exact Hnp|].
    split.
    - intros ->. destruct (decide (l3 = "")) as [|Hne]; [assumption|].
      now destruct (unescapeFilepath_nonempty l3 "" Hnp Hne).
    - intros ->. rewrite unescapeFilepath_nil in Hnp. congruence. }
  split; [|split; [|split; [|split]]].
  - apply parseInodeChange_bad_count. exact Hc.
  - intros Hreq (expect & got & Hm).
    pose proof (requiredFields_ge3 _ _ Hreq) as Hge.
    destruct rest as [|l1 [|l2 rest]]; simpl in Hge; try lia.
    destruct (inodeTypeMap !! l1) as [ty|] eqn:Hty.
    2:{ rewrite (parseInodeChange_unknown_inode w _ _ _ _ _ Hc Hreq Hty) in Hm.
        discriminate. }
    rewrite (parseInodeChange_fields w _ _ _ _ _ _ Hc Hreq Hty) in Hm.
    destruct (unescapeFilepath l2) as [path| |]; try discriminate.
    destruct (parseExtra w ct _) as [extra|e|] eqn:Hx; try discriminate.
    simpl in Hm. injection Hm as ->.
    apply parseExtra_err in Hx as [[e' He]|[e' He]]; discriminate.
  - intros c Hok.
    destruct (parseInodeChange_Ok_inv w _ _ Hok)
      as (code' & l1 & l2 & rest' & ct' & ty & path & extra
          & Hline & Hc' & Hreq & _ & _ & _ & ->).
    injection Hline as <- ->. rewrite Hc in Hc'. injection Hc' as <-.
    split; [reflexivity | exact Hreq].
  - exact Hren.
  - intros Hct raw c Hraw Hok.
    destruct (Hren Hct c Hok) as (ityp & p & np & Hrest & _ & Hiff).
    intros Hempty. apply Hiff in Hempty. subst rest np.
    pose proof (Fields_nonempty raw) as Hne. rewrite <- Hraw in Hne.
    exact (Forall_lookup_1 _ _ 3 "" Hne eq_refl eq_refl).
Qed.

Lemma parseInodeChange_field_count_witness :
  (exists expect,
     parseInodeChange strconv.W64 ["R"; "F"; "/pool/bar/file"]
     = Err (MismatchFields expect 3))
  /\ ~ isMismatch (parseInodeChange strconv.W64
                     ["R"; "F"; "/pool/bar/file"; "/pool/bar/file-new"])
  /\ (forall c,
        parseInodeChange strconv.W64
          ["R"; "F"; "/pool/bar/file"; "/pool/bar/file-new"] = Ok c ->
        (Change c = Renamed /\ 4 = 4) /\ NewPath c <> "")
  /\ (forall c,
        parseInodeChange strconv.W64 ["R"; "F"; "/pool/bar/file"; ""] = Ok c ->
        exists ityp p np,
          ["F"; "/pool/bar/file"; ""] = [ityp; p; np]
          /\ unescapeFilepath np = Ok (NewPath c)
          /\ (NewPath c = "" <-> np = "")).
Proof.
  assert (Hc : changeTypeMap !! "R" = Some Renamed) by (vm_compute; reflexivity).
  split; [|split; [|split]].
  - apply (proj1 (parseInodeChange_field_count strconv.W64 "R"
                    ["F"; "/pool/bar/file"] Renamed Hc)).
    simpl. lia.
  - apply (proj1 (proj2 (parseInodeChange_field_count strconv.W64 "R"
                    ["F"; "/pool/bar/file"; "/pool/bar/file-new"] Renamed Hc))).
    simpl. lia.
  - intros c Hok.
    destruct (proj2 (proj2 (parseInodeChange_field_count strconv.W64 "R"
                    ["F"; "/pool/bar/file"; "/pool/bar/file-new"] Renamed Hc)))
      as (Hcount & _ & Hpath).
    split; [exact (Hcount c Hok)|].
    apply (Hpath eq_refl "R F /pool/bar/file  /pool/bar/file-new" c);
      [vm_compute; reflexivity | exact Hok].
  - intros c Hok.
    destruct (proj2 (proj2 (parseInodeChange_field_count strconv.W64 "R"
                    ["F"; "/pool/bar/file"; ""] Renamed Hc)))
      as (_ & Hnew & _).
    exact (Hnew eq_refl c Hok).
Defined.

(** C4 (amended). For every Modified row that has a 4th field, whose inode
    code and path are well formed, the parser succeeds exactly when the
    field holds an annotation (an opening parenthesis, a sign, one or more
    digits, a closing parenthesis) anywhere in it and the signed integer of
    the leftmost one fits Go's int; the result then carries that integer.
    With no annotation, or with one that does not fit, the row fails with
    the reference-count error. *)
Theorem parseInodeChange_reference_count (w : strconv.WordSize)
    (code ityp p f : string) (ty : InodeType) (path : string) :
  changeTypeMap !! code = Some Modified ->
  inodeTypeMap !! ityp = Some ty ->
  unescapeFilepath p = Ok path ->
  (forall c, parseInodeChange w [code; ityp; p; f] = Ok c <->
     exists sg ds,
       leftmostAnnotation f sg ds
       /\ fitsInt w (signedValue sg (decimalValue ds)) = true
       /\ c = mkInodeChange Modified ty path ""
                (signedValue sg (decimalValue ds)))
  /\ ((forall k sg ds, ~ annotatedAt f k sg ds) ->
        parseInodeChange w [code; ityp; p; f]
        = Err (FailedReferenceCount RegexpNoMatch))
  /\ (forall sg ds,
        leftmostAnnotation f sg ds ->
        fitsInt w (signedValue sg (decimalValue ds)) = false ->
        parseInodeChange w [code; ityp; p; f]
        = Err (FailedReferenceCount
                 (AtoiFailed (mkNumError "Atoi" (String sg ds) ErrRange)))).
Proof.
  intros Hc Hty Hp.
  rewrite (parseInodeChange_modified4 w _ _ _ _ _ _ Hc Hty Hp).
  split; [|split].
  - intros c. split.
    + intros Hok. destruct (annotation_dichotomy f) as [(sg & ds & Hl)|Hno].
      * rewrite (parseReferenceCount_leftmost w f sg ds Hl) in Hok.
        destruct (fitsInt w _) eqn:Hfit; [|discriminate].
        injection Hok as <-. exists sg, ds. auto.
      * rewrite (parseReferenceCount_none w f Hno) in Hok. discriminate.
    + intros (sg & ds & Hl & Hfit & ->).
      rewrite (parseReferenceCount_leftmost w f sg ds Hl), Hfit. reflexivity.
  - intros Hno. now rewrite (parseReferenceCount_none w f Hno).
  - intros sg ds Hl Hfit.
    now rewrite (parseReferenceCount_leftmost w f sg ds Hl), Hfit.
Qed.

(** ** The claims about single rows, continued *)

Lemma parseInodeChange_reference_count_witness :
  parseInodeChange strconv.W64 ["M"; "F"; "/pool/bar/hello.txt"; "(+1)"]
  = Ok (mkInodeChange Modified File "/pool/bar/hello.txt" "" 1).
Proof.
  apply (proj1 (parseInodeChange_reference_count strconv.W64
                  "M" "F" "/pool/bar/hello.txt" "(+1)" File
                  "/pool/bar/hello.txt"
                  ltac:(vm_compute; reflexivity)
                  ltac:(vm_compute; reflexivity)
                  ltac:(vm_compute; reflexivity))).
  exists "+"%char, "1". split; [|split; reflexivity].
  exists 0. split; [|intros; lia].
  split.
  - repeat split; [discriminate].
  - exists "", "". split; reflexivity.
Defined.

(** C4, as stated, fails: the field below is exactly an opening
    parenthesis, a sign, digits and a closing parenthesis, yet the row is
    rejected on both word sizes, the integer being out of range. *)
Lemma reference_count_overflow_rejected :
  "(+99999999999999999999)" = annotation "+" "99999999999999999999"
  /\ isAnnotation "+" "99999999999999999999"
  /\ forall w,
       parseInodeChange w ["M"; "F"; "/a"; "(+99999999999999999999)"]
       = Err (FailedReferenceCount
                (AtoiFailed
                   (mkNumError "Atoi" "+99999999999999999999" ErrRange))).
Proof.
  split; [reflexivity|]. split.
  - repeat split; [discriminate].
  - intros [|]; vm_compute; reflexivity.
Qed.

(** The expression is searched for, not matched against the whole field. *)
Example reference_count_inside_field :
  parseInodeChange strconv.W64 ["M"; "F"; "/a"; "x(+1)y"]
  = Ok (mkInodeChange Modified File "/a" "" 1).
Proof. vm_compute. reflexivity. Qed.

(** C5. The five scenario rows parse as listed, on either word size; and
    any row that parses has an empty secondary path unless it is Renamed,
    and a zero reference-count change unless it is a Modified row of four
    fields. *)
Theorem parseInodeChange_scenarios (w : strconv.WordSize) :
  parseInodeChange w ["-"; "F"; "/pool/bar/hello.txt"]
  = Ok (mkInodeChange Removed File "/pool/bar/hello.txt" "" 0)
  /\ parseInodeChange w ["M"; "/"; "/pool/bar/"]
     = Ok (mkInodeChange Modified Directory "/pool/bar/" "" 0)
  /\ parseInodeChange w ["M"; "F"; "/pool/bar/hello.txt"; "(+1)"]
     = Ok (mkInodeChange Modified File "/pool/bar/hello.txt" "" 1)
  /\ parseInodeChange w ["R"; "F"; "/pool/bar/file"; "/pool/bar/file-new"]
     = Ok (mkInodeChange Renamed File "/pool/bar/file" "/pool/bar/file-new" 0)
  /\ parseInodeChange w ["X"; "F"; "/a"] = Err (UnknownChangeType "X")
  /\ (forall line c, parseInodeChange w line = Ok c ->
        (Change c <> Renamed -> NewPath c = "")
        /\ (Change c <> Modified \/ length line <> 4 ->
            ReferenceCountChange c = 0%Z)).
Proof.
  split; [destruct w; vm_compute; reflexivity|].
  split; [destruct w; vm_compute; reflexivity|].
  split; [destruct w; vm_compute; reflexivity|].
  split; [destruct w; vm_compute; reflexivity|].
  split; [destruct w; vm_compute; reflexivity|].
  intros line c Hok.
  destruct (parseInodeChange_Ok_inv w _ _ Hok)
    as (code & l1 & l2 & rest & ct & ty & path & extra
        & _ & _ & _ & _ & _ & Hx & ->).
  exact (parseExtra_defaults w ct line extra Hx).
Qed.

Lemma parseInodeChange_scenarios_witness :
  let c := mkInodeChange Removed File "/pool/bar/hello.txt" "" 0 in
  parseInodeChange strconv.W64 ["-"; "F"; "/pool/bar/hello.txt"] = Ok c
  /\ Change c <> Renamed
  /\ NewPath c = ""
  /\ ReferenceCountChange c = 0%Z.
Proof.
  intros c.
  destruct (parseInodeChange_scenarios strconv.W64)
    as (H1 & _ & _ & _ & _ & Hdef).
  destruct (Hdef _ c H1) as [Hnp Hrc].
  split; [exact H1|]. split; [discriminate|].
  split; [apply Hnp; discriminate | apply Hrc; left; discriminate].
Defined.

(** ** The batch loop *)

Section Batch.

Local Open Scope list_scope.

Variable w : strconv.WordSize.

Lemma parseInodeChanges_loop_spec (lines : list (list string)) :
  forall done : list InodeChange,
  exists res err,
    parseInodeChanges_loop w (length done) lines
      ((Some <$> done) ++ replicate (length lines) None)
    = Some (res, err)
    /\ ((err = None
         /\ exists cs, res = Some <$> (done ++ cs)
              /\ Forall2 (fun line c => parseInodeChange w line = Ok c)
                   lines cs)
        \/ (res = []
            /\ exists k e line,
                 err = Some (FailedLine (length done + k) e line)
                 /\ lines !! k = Some line
                 /\ parseInodeChange w line = Err e
                 /\ forall j line', j < k -> lines !! j = Some line' ->
                      exists c, parseInodeChange w line' = Ok c)).
Proof.
  induction lines as [|line lines IH]; intros done.
  - simpl. eexists _, _. split; [reflexivity|]. left. split; [reflexivity|].
    exists []. rewrite !app_nil_r. split; [reflexivity | constructor].
  - cbn [parseInodeChanges_loop].
    destruct (parseInodeChange w line) as [c|e|] eqn:Hline.
    + simpl length. cbn [replicate].
      rewrite insert_app_r_alt by (rewrite length_fmap; lia).
      rewrite length_fmap, Nat.sub_diag. cbn [insert list_insert].
      replace ((Some <$> done) ++ Some c :: replicate (length lines) None)
        with ((Some <$> (done ++ [c])) ++ replicate (length lines) None)
        by (rewrite fmap_app, <- app_assoc; reflexivity).
      replace (S (length done)) with (length (done ++ [c]))
        by (rewrite length_app; simpl; lia).
      destruct (IH (done ++ [c])) as (res & err & Heq & Hcase).
      exists res, err. split; [exact Heq|].
      destruct Hcase as [(-> & cs & -> & Hall)|(-> & k & e & l & -> & Hk & He & Hbefore)].
      * left. split; [reflexivity|]. exists (c :: cs).
        rewrite <- app_assoc. split; [reflexivity|].
        constructor; assumption.
      * right. split; [reflexivity|]. exists (S k), e, l.
        rewrite length_app. simpl.
        replace (length done + 1 + k) with (length done + S k) by lia.
        repeat split; auto.
        intros [|j] line' Hj Hl; simpl in Hl.
        -- injection Hl as <-. eauto.
        -- apply (Hbefore j line'); [lia | exact Hl].
    + eexists _, _. split; [reflexivity|]. right. split; [reflexivity|].
      exists 0, e, line. rewrite Nat.add_0_r.
      repeat split; auto. intros j line' Hj. lia.
    + now apply parseInodeChange_no_panic in Hline.
Qed.

End Batch.

(** C7. Batch parsing always returns, and returns either one change per
    row, each the parse of its row and in the order of the rows, with no
    error; or no changes at all with a single error that names the first
    row that fails to parse, by index and content, and carries its error. *)
Theorem parseInodeChanges_all_or_nothing (w : strconv.WordSize)
    (lines : list (list string)) :
  exists res err,
    parseInodeChanges w lines = Some (res, err)
    /\ ((err = None
         /\ exists cs, res = Some <$> cs
              /\ Forall2 (fun line c => parseInodeChange w line = Ok c)
                   lines cs)
        \/ (res = []
            /\ exists k e line,
                 err = Some (FailedLine k e line)
                 /\ lines !! k = Some line
                 /\ parseInodeChange w line = Err e
                 /\ forall j line', j < k -> lines !! j = Some line' ->
                      exists c, parseInodeChange w line' = Ok c)).
Proof.
  exact (parseInodeChanges_loop_spec w lines []).
Qed.

(** ** Captured output *)

Lemma Split_from_length (sep : ascii) (s cur : string) :
  1 <= length (Split_from sep cur s).
Proof.
  revert cur. induction s as [|c s IH]; intros cur; simpl; [lia|].
  case_bool_decide; simpl; [lia | apply IH].
Qed.

Lemma tokenize_eq {E} (captured : string) :
  @tokenize E captured
  = Ok (Fields <$> take (length (Split captured newline) - 1)
                        (Split captured newline)).
Proof.
  unfold tokenize, slice_to.
  pose proof (Split_from_length newline captured "") as Hlen.
  fold (Split captured newline) in Hlen.
  destruct (Z.leb_spec 0 (Z.of_nat (length (Split captured newline)) - 1));
    [|lia].
  destruct (Z.leb_spec (Z.of_nat (length (Split captured newline)) - 1)
              (Z.of_nat (length (Split captured newline)))); [|lia].
  simpl. do 3 f_equal. lia.
Qed.

(** C10. Splitting the captured output never fails: there is always at
    least one segment, so dropping the last one is within bounds; a
    command that succeeded with no sink of its own returns one row per
    remaining segment, and no row at all for empty output. *)
Theorem Run_splitting_total (Command : string) (arg : list string)
    (x : Execution) :
  start_err x = None -> wait_err x = None ->
  1 <= length (Split (stdout x) newline)
  /\ (exists rows,
        Run Command false arg x = Ok rows
        /\ length rows = length (Split (stdout x) newline) - 1)
  /\ (stdout x = "" -> Run Command false arg x = Ok []).
Proof.
  intros Hs Hw. unfold Run. rewrite Hs, Hw.
  split; [apply Split_from_length|]. split.
  - rewrite tokenize_eq. eexists. split; [reflexivity|].
    rewrite length_fmap, length_take. lia.
  - intros ->. reflexivity.
Qed.

Lemma Run_splitting_total_witness :
  Run "zfs" false ["list"] (mkExecution None None "" "") = Ok []
  /\ exists rows,
       Run "zfs" false ["list"] (mkExecution None None "a b" "") = Ok rows
       /\ length rows = 0.
Proof.
  split.
  - apply (Run_splitting_total "zfs" ["list"] (mkExecution None None "" ""));
      reflexivity.
  - apply (Run_splitting_total "zfs" ["list"] (mkExecution None None "a b" ""));
      reflexivity.
Defined.

(** C2 (amended). For the captured text of two data lines followed by one
    blank line the tokenizer produces three rows: the fields of the two
    lines and an empty row for the blank line; only the segment after the
    last line break is dropped.  Two rows, and no more, come from the text
    in which each of the two lines is ended by its line break. *)
Theorem tokenize_two_lines {E} :
  @tokenize E two_lines_and_blank = Ok [["a"; "b"]; ["c"; "d"]; []]
  /\ @tokenize E two_lines = Ok [["a"; "b"]; ["c"; "d"]]
  /\ forall captured,
       @tokenize E captured
       = Ok (Fields <$> take (length (Split captured newline) - 1)
                             (Split captured newline)).
Proof.
  split; [vm_compute; reflexivity|].
  split; [vm_compute; reflexivity|].
  apply tokenize_eq.
Qed.

(** C2, as stated, fails: the blank line is kept as a third, empty row. *)
Lemma tokenize_blank_line_kept :
  @tokenize error two_lines_and_blank <> Ok [["a"; "b"]; ["c"; "d"]]
  /\ exists rows, @tokenize error two_lines_and_blank = Ok rows
                  /\ length rows = 3.
Proof.
  split; [vm_compute; discriminate|].
  eexists. split; [vm_compute; reflexivity | reflexivity].
Qed.

(** ** Tabular records *)

Lemma setString_sentinel {F} `{EqDecision F} (field : F) (value : string)
    (s : F -> string) :
  setString field value s = (<[field := sentinel value]> s, Ok tt).
Proof.
  unfold setString, sentinel. do 2 f_equal.
  repeat case_bool_decide; congruence.
Qed.

(** C6. For every row, [Dataset.parseLine] fails with the mismatch error
    and leaves the record as it was when the row's field count differs
    from the platform's column count; otherwise, the column list being as
    long as the columns the mapper reads, it succeeds and every mapped
    field holds the field of its column, ["-"] read as the empty string
    and any other value copied unchanged, the other fields untouched. *)
Theorem parseLine_maps (GOOS : string) (DsPropList line : list string)
    (ds : Dataset) :
  (length line <> length DsPropList ->
     exists what, parseLine GOOS DsPropList line ds
                  = (ds, Err (OutputMismatch what)))
  /\ (length line = length DsPropList ->
      columnsRead GOOS <= length DsPropList ->
      exists ds', parseLine GOOS DsPropList line ds = (ds', Ok tt)
                  /\ forall field, ds' field = mapped GOOS line ds field).
Proof.
  split.
  - intros Hne. unfold parseLine. rewrite bool_decide_eq_true_2 by exact Hne.
    eexists. reflexivity.
  - intros Heq Hcols. unfold parseLine.
    rewrite bool_decide_eq_false_2 by (intros Hne; apply Hne; exact Heq).
    rewrite <- Heq in Hcols. clear Heq. unfold columnsRead in Hcols.
    destruct line as [|x0 [|x1 [|x2 [|x3 [|x4 [|x5 [|x6 [|x7 [|x8 rest]]]]]]]]];
      try (case_bool_decide; simpl in Hcols; lia).
    unfold setAt, bind, at_, index. simpl lookup. cbv beta iota.
    repeat (rewrite setString_sentinel; cbv beta iota).
    destruct (bool_decide (GOOS = "solaris")) eqn:Hos.
    + apply bool_decide_eq_true in Hos.
      rewrite (bool_decide_eq_false_2 (GOOS <> "solaris")) by tauto.
      eexists. split; [reflexivity|].
      intros field. unfold mapped, column.
      rewrite (bool_decide_eq_true_2 _ Hos).
      destruct field; reflexivity.
    + apply bool_decide_eq_false in Hos.
      rewrite (bool_decide_eq_true_2 (GOOS <> "solaris")) by exact Hos.
      destruct rest as [|x9 [|x10 [|x11 rest]]]; simpl in Hcols; try lia.
      simpl lookup. cbv beta iota.
      repeat (rewrite setString_sentinel; cbv beta iota).
      eexists. split; [reflexivity|].
      intros field. unfold mapped, column.
      rewrite (bool_decide_eq_false_2 _ Hos).
      destruct field; reflexivity.
Qed.

Lemma parseLine_maps_witness :
  (exists what,
     parseLine "linux" ["name"; "origin"] ["tank"] (fun _ => "old")
     = (fun _ => "old", Err (OutputMismatch what)))
  /\ exists ds',
       parseLine "solaris"
         ["name"; "origin"; "used"; "available"; "mountpoint"; "compression";
          "type"; "volsize"; "quota"]
         ["tank/a"; "-"; "1K"; "2G"; "/tank/a"; "lz4"; "filesystem"; "-"; " 0"]
         (fun _ => "old")
       = (ds', Ok tt)
       /\ ds' Name = "tank/a" /\ ds' Origin = "" /\ ds' Quota = " 0"
       /\ ds' Written = "old".
Proof.
  split.
  - apply (proj1 (parseLine_maps "linux" ["name"; "origin"] ["tank"]
                    (fun _ => "old"))).
    simpl. lia.
  - destruct (proj2 (parseLine_maps "solaris"
         ["name"; "origin"; "used"; "available"; "mountpoint"; "compression";
          "type"; "volsize"; "quota"]
         ["tank/a"; "-"; "1K"; "2G"; "/tank/a"; "lz4"; "filesystem"; "-"; " 0"]
         (fun _ => "old")) eq_refl ltac:(vm_compute; lia))
      as (ds' & Heq & Hmap).
    exists ds'. split; [exact Heq|].
    rewrite !Hmap. repeat split.
Defined.

(** The pool mapper follows the same rule over its five columns. *)
Lemma Zpool_parseLine_maps (ZpoolPropList line : list string) (z : Zpool) :
  (length line <> length ZpoolPropList ->
     exists what, Zpool_parseLine ZpoolPropList line z
                  = (z, Err (OutputMismatch what)))
  /\ (length line = length ZpoolPropList -> 5 <= length ZpoolPropList ->
      exists z', Zpool_parseLine ZpoolPropList line z = (z', Ok tt)
                 /\ forall field,
                      z' field = sentinel (default "" (line !! zcolumn field))).
Proof.
  split.
  - intros Hne. unfold Zpool_parseLine.
    rewrite bool_decide_eq_true_2 by exact Hne. eexists. reflexivity.
  - intros Heq Hcols. unfold Zpool_parseLine.
    rewrite bool_decide_eq_false_2 by (intros Hne; apply Hne; exact Heq).
    rewrite <- Heq in Hcols. clear Heq.
    destruct line as [|x0 [|x1 [|x2 [|x3 [|x4 rest]]]]]; simpl in Hcols; try lia.
    unfold setAt, bind, at_, index. simpl lookup. cbv beta iota.
    repeat (rewrite setString_sentinel; cbv beta iota).
    eexists. split; [reflexivity|].
    intros field. destruct field; reflexivity.
Qed.

(** ** Property arguments *)

Section Props.

Local Open Scope list_scope.

Lemma propsSlice_over_acc (order : list (string * string)) :
  forall acc : list string,
    foldl (fun (args : list string) '(k, v) =>
             (args ++ ["-o"]) ++ [k +:+ "=" +:+ v]) acc order
    = acc ++ concat (propTokens <$> order).
Proof.
  induction order as [|[k v] order IH]; intros acc; simpl.
  - now rewrite app_nil_r.
  - rewrite IH. unfold propTokens at 2. simpl.
    rewrite <- !app_assoc. reflexivity.
Qed.

Lemma propsSlice_over_concat (order : list (string * string)) :
  propsSlice_over order = concat (propTokens <$> order).
Proof. apply (propsSlice_over_acc order []). Qed.

Lemma length_concat_propTokens (order : list (string * string)) :
  length (concat (propTokens <$> order)) = 2 * length order.
Proof.
  induction order as [|kv order IH]; [reflexivity|].
  rewrite fmap_cons. change (concat (propTokens kv :: (propTokens <$> order)))
    with (propTokens kv ++ concat (propTokens <$> order)).
  rewrite length_app, IH. simpl. lia.
Qed.

End Props.

Lemma propsSlice_of_order (properties : gmap string string)
    (order : list (string * string)) :
  order ≡ₚ map_to_list properties ->
  propsSlice properties (concat (propTokens <$> order)).
Proof.
  intros Hperm. exists order. split; [exact Hperm|].
  now rewrite propsSlice_over_concat.
Qed.

Lemma lookup_concat_propTokens (order : list (string * string)) :
  forall (i : nat) (k v : string),
    order !! i = Some (k, v) ->
    concat (propTokens <$> order) !! (2 * i)%nat = Some "-o"
    /\ concat (propTokens <$> order) !! (2 * i + 1)%nat
       = Some (k ++ "=" ++ v).
Proof.
  induction order as [|kv order IH]; intros i k v Hi; [discriminate|].
  rewrite fmap_cons.
  change (concat (propTokens kv :: (propTokens <$> order)))
    with ("-o" :: (fst kv ++ "=" ++ snd kv)%string
            :: concat (propTokens <$> order)).
  destruct i as [|i].
  - injection Hi as ->. split; reflexivity.
  - replace (2 * S i)%nat with (S (S (2 * i))) by lia.
    replace (S (S (2 * i)) + 1)%nat with (S (S (2 * i + 1))) by lia.
    exact (IH i k v Hi).
Qed.

(** C9. For every property map the encoder returns an argument list, and
    whatever order the map is ranged over, that list is the concatenation,
    over an enumeration without repetition of exactly the entries of the
    map, of the flag token immediately followed by the one key=value token
    of the entry: it has twice as many tokens as the map has entries.  The
    order of the entries is not fixed: the list built over any enumeration
    of the entries is a possible result. *)
Theorem propsSlice_pairs (properties : gmap string string) :
  (exists args, propsSlice properties args)
  /\ (forall order, order ≡ₚ map_to_list properties ->
        propsSlice properties (concat (propTokens <$> order)))
  /\ (forall args, propsSlice properties args ->
        length args = 2 * size properties
        /\ exists order,
             NoDup order
             /\ (forall k v, (k, v) ∈ order <-> properties !! k = Some v)
             /\ args = concat (propTokens <$> order)
             /\ forall (i : nat) k v,
                  order !! i = Some (k, v) ->
                  args !! (2 * i)%nat = Some "-o"
                  /\ args !! (2 * i + 1)%nat = Some (k ++ "=" ++ v)).
Proof.
  split; [|split].
  - exists (concat (propTokens <$> map_to_list properties)).
    now apply propsSlice_of_order.
  - apply propsSlice_of_order.
  - intros args (order & Hperm & ->).
    rewrite propsSlice_over_concat, length_concat_propTokens.
    split.
    + rewrite Hperm, length_map_to_list. reflexivity.
    + exists order. split; [|split; [|split]].
      * rewrite Hperm. apply NoDup_map_to_list.
      * intros k v. rewrite Hperm. apply elem_of_map_to_list.
      * reflexivity.
      * apply lookup_concat_propTokens.
Qed.

Lemma propsSlice_pairs_witness :
  propsSlice {["compression" := "lz4"; "mountpoint" := "/mnt"]}
    ["-o"; "compression=lz4"; "-o"; "mountpoint=/mnt"]
  /\ propsSlice {["compression" := "lz4"; "mountpoint" := "/mnt"]}
       ["-o"; "mountpoint=/mnt"; "-o"; "compression=lz4"]
  /\ length ["-o"; "mountpoint=/mnt"; "-o"; "compression=lz4"]
     = 2 * size ({["compression" := "lz4"; "mountpoint" := "/mnt"]}
                   : gmap string string).
Proof.
  pose (properties := ({["compression" := "lz4"; "mountpoint" := "/mnt"]}
                         : gmap string string)).
  assert (Hperm : [("compression", "lz4"); ("mountpoint", "/mnt")]
                  ≡ₚ map_to_list properties).
  { unfold properties. rewrite map_to_list_insert by reflexivity.
    now rewrite map_to_list_singleton. }
  assert (Hswap : [("mountpoint", "/mnt"); ("compression", "lz4")]
                  ≡ₚ map_to_list properties).
  { rewrite <- Hperm. apply Permutation_swap. }
  pose proof (proj1 (proj2 (propsSlice_pairs properties)) _ Hperm) as H1.
  pose proof (proj1 (proj2 (propsSlice_pairs properties)) _ Hswap) as H2.
  split; [exact H1|]. split; [exact H2|].
  exact (proj1 (proj2 (proj2 (propsSlice_pairs properties)) _ H2)).
Defined.

(** ** More on [unescapeFilepath] *)

Lemma ParseUint_octal_inr (q : string) (v : N) :
  strconv.ParseUint q 8 8 = inr v -> all_bytes isOctal q = true.
Proof.
  intros Hv. destruct (all_bytes isOctal q) eqn:Hall; [reflexivity|].
  destruct (ParseUint_octal_bad q (or_introl Hall)) as [e He]. congruence.
Qed.

Lemma isOctal_not_backslash (c : ascii) :
  isOctal c = true -> c <> "\"%char.
Proof. intros Hc ->. discriminate Hc. Qed.

Lemma countByte_octal (q : string) :
  all_bytes isOctal q = true -> countByte "\" q = 0.
Proof.
  induction q as [|c q IH]; simpl; [reflexivity|].
  intros H. apply andb_prop in H as [Hc Hq].
  rewrite (bool_decide_eq_false_2 _ (isOctal_not_backslash c Hc)).
  now rewrite IH.
Qed.

Lemma countByte_app (b : ascii) (s t : string) :
  countByte b (s ++ t) = countByte b s + countByte b t.
Proof.
  induction s as [|c s IH]; [reflexivity|].
  rewrite string_app_cons. simpl. rewrite IH. lia.
Qed.

Lemma unescapeFilepath_length_aux (n : nat) : forall path r : string,
  String.length path <= n ->
  unescapeFilepath path = Ok r ->
  String.length r + 4 * countByte "\" path = String.length path.
Proof.
  induction n as [|n IH]; intros path r Hlen Hok.
  - destruct path; [|simpl in Hlen; lia].
    rewrite unescapeFilepath_nil in Hok. now injection Hok as <-.
  - destruct path as [|c rest].
    { rewrite unescapeFilepath_nil in Hok. now injection Hok as <-. }
    simpl in Hlen. destruct (decide (c = "\"%char)) as [->|Hc].
    + destruct (decide (String.length rest < 4)) as [Hs|Hs].
      { rewrite unescapeFilepath_short in Hok by exact Hs. discriminate. }
      destruct rest as [|a [|b [|c [|d rest]]]]; simpl in Hs; try lia.
      set (q := String a (String b (String c (String d "")))).
      change (String "\" (String a (String b (String c (String d rest)))))
        with (String "\" (q ++ rest)) in *.
      rewrite unescapeFilepath_escape in Hok by reflexivity.
      destruct (strconv.ParseUint q 8 8) as [e|val] eqn:Hq; [discriminate|].
      destruct (unescapeFilepath rest) as [r'| |] eqn:Hrest; try discriminate.
      injection Hok as <-.
      pose proof (IH rest r' ltac:(simpl in Hlen; lia) Hrest) as Hr.
      pose proof (countByte_octal q (ParseUint_octal_inr q val Hq)) as H0.
      cbn [countByte]. rewrite bool_decide_eq_true_2 by reflexivity.
      rewrite countByte_app, H0.
      cbn [String.length]. rewrite string_length_app. simpl String.length.
      lia.
    + rewrite unescapeFilepath_plain in Hok by exact Hc.
      destruct (unescapeFilepath rest) as [r'| |] eqn:Hrest; try discriminate.
      injection Hok as <-.
      pose proof (IH rest r' ltac:(lia) Hrest) as Hr.
      cbn [countByte]. rewrite bool_decide_eq_false_2 by exact Hc.
      simpl. lia.
Qed.

(** X1. Unescaping shortens a path by four bytes for each backslash: when
    it succeeds, the length of the result plus four times the number of
    backslashes of the path is the length of the path. *)
Theorem unescapeFilepath_length (path r : string) :
  unescapeFilepath path = Ok r ->
  String.length r + 4 * countByte "\" path = String.length path.
Proof. apply (unescapeFilepath_length_aux (String.length path)). lia. Qed.

Lemma unescapeFilepath_length_witness :
  unescapeFilepath "/a\0040b\0134" = Ok "/a b\"
  /\ String.length "/a b\" + 4 * countByte "\" "/a\0040b\0134"
     = String.length "/a\0040b\0134".
Proof.
  assert (H : unescapeFilepath "/a\0040b\0134" = Ok "/a b\")
    by (vm_compute; reflexivity).
  split; [exact H|]. exact (unescapeFilepath_length _ _ H).
Defined.

Lemma octal4_decodes (b : ascii) :
  String.length (octal4 b) = 4
  /\ strconv.ParseUint (octal4 b) 8 8 = inr (N_of_ascii b)
  /\ byte_of (N_of_ascii b) = b.
Proof.
  destruct b as [[] [] [] [] [] [] [] []]; vm_compute; repeat split.
Qed.

Lemma unescape_of_escapeWith (esc : ascii -> bool) (s : string) :
  esc "\"%char = true ->
  unescapeFilepath (escapeWith esc s) = Ok s.
Proof.
  intros Hesc. induction s as [|c s IH]; [exact unescapeFilepath_nil|].
  cbn [escapeWith]. destruct (esc c) eqn:Hc.
  - rewrite string_app_cons.
    destruct (octal4_decodes c) as (Hlen & Hparse & Hbyte).
    rewrite unescapeFilepath_escape by exact Hlen.
    rewrite Hparse, Hbyte, IH. reflexivity.
  - rewrite string_app_cons, string_app_nil_l.
    rewrite unescapeFilepath_plain by (intros ->; congruence).
    rewrite IH. reflexivity.
Qed.

(** X2. Unescaping inverts the escaping it is written for: whatever bytes
    are chosen to be escaped, the backslash being one of them, writing
    each of these as a backslash and its four octal digits and unescaping
    the result gives back the original bytes. *)
Theorem unescapeFilepath_escapeWith (esc : ascii -> bool) (s : string) :
  esc "\"%char = true ->
  unescapeFilepath (escapeWith esc s) = Ok s.
Proof. exact (unescape_of_escapeWith esc s). Qed.

Lemma unescapeFilepath_escapeWith_witness :
  escapeWith (fun c => bool_decide (c = "\"%char) || bool_decide (c = " "%char))
    "/a b\c" = "/a\0040b\0134c"
  /\ unescapeFilepath "/a\0040b\0134c" = Ok "/a b\c".
Proof.
  split; [vm_compute; reflexivity|].
  exact (unescapeFilepath_escapeWith
           (fun c => bool_decide (c = "\"%char) || bool_decide (c = " "%char))
           "/a b\c" eq_refl).
Defined.

(** ** More on the diff parser *)


(** X4. A row is rejected for its first offending field: an unknown change
    code is reported whatever the number of fields; with a known change
    code and the right number of fields, an unknown inode code is reported
    whatever the paths are; with a known inode code, a malformed primary
    path is reported whatever the fourth field is. *)
Theorem parseInodeChange_first_offence (w : strconv.WordSize) :
  (forall code rest,
     changeTypeMap !! code = None ->
     parseInodeChange w (code :: rest) = Err (UnknownChangeType code))
  /\ (forall code ct l1 l2 rest,
        changeTypeMap !! code = Some ct ->
        requiredFields ct (3 + length rest) ->
        inodeTypeMap !! l1 = None ->
        parseInodeChange w (code :: l1 :: l2 :: rest)
        = Err (UnknownInodeType l1))
  /\ (forall code ct l1 ty l2 rest e,
        changeTypeMap !! code = Some ct ->
        requiredFields ct (3 + length rest) ->
        inodeTypeMap !! l1 = Some ty ->
        unescapeFilepath l2 = Err e ->
        parseInodeChange w (code :: l1 :: l2 :: rest)
        = Err (FailedFilename e)).
Proof.
  split; [exact (parseInodeChange_unknown_change w)|].
  split.
  - intros code ct l1 l2 rest Hc Hreq Hty.
    exact (parseInodeChange_unknown_inode w _ _ _ _ _ Hc Hreq Hty).
  - intros code ct l1 ty l2 rest e Hc Hreq Hty He.
    rewrite (parseInodeChange_fields w _ _ _ _ _ _ Hc Hreq Hty), He.
    reflexivity.
Qed.

Lemma parseInodeChange_first_offence_witness :
  parseInodeChange strconv.W64 ["?"] = Err (UnknownChangeType "?")
  /\ parseInodeChange strconv.W64 ["R"; "?"; "\"; "\"]
     = Err (UnknownInodeType "?")
  /\ parseInodeChange strconv.W64 ["M"; "F"; "\04"; "bad"]
     = Err (FailedFilename OctalTooShort).
Proof.
  destruct (parseInodeChange_first_offence strconv.W64) as (H1 & H2 & H3).
  split; [|split].
  - apply H1. vm_compute. reflexivity.
  - apply (H2 "R" Renamed "?" "\" ["\"]);
      [vm_compute; reflexivity | reflexivity | vm_compute; reflexivity].
  - apply (H3 "M" Modified "F" File "\04" ["bad"] OctalTooShort);
      [vm_compute; reflexivity | right; reflexivity
      | vm_compute; reflexivity | vm_compute; reflexivity].
Defined.

(** X5. A Renamed row of four fields with a known inode code parses
    exactly when both of its paths unescape, and then carries the two
    unescaped paths and a zero reference-count change. *)
Theorem parseInodeChange_renamed (w : strconv.WordSize)
    (code ityp p q : string) (ty : InodeType) (c : InodeChange) :
  changeTypeMap !! code = Some Renamed ->
  inodeTypeMap !! ityp = Some ty ->
  parseInodeChange w [code; ityp; p; q] = Ok c <->
  exists path newPath,
    unescapeFilepath p = Ok path /\ unescapeFilepath q = Ok newPath
    /\ c = mkInodeChange Renamed ty path newPath 0.
Proof.
  intros Hc Hty.
  rewrite (parseInodeChange_fields w code ityp p [q] Renamed ty Hc eq_refl Hty).
  simpl. unfold index. simpl.
  destruct (unescapeFilepath p) as [path| |];
    destruct (unescapeFilepath q) as [newPath| |]; simpl; split;
    try discriminate;
    try (intros (? & ? & ? & ? & ?); discriminate).
  - intros [= <-]. eauto.
  - intros (path' & newPath' & [= <-] & [= <-] & ->). reflexivity.
Qed.

Lemma parseInodeChange_renamed_witness :
  parseInodeChange strconv.W64 ["R"; "/"; "/a\0040b"; "/c"]
  = Ok (mkInodeChange Renamed Directory "/a b" "/c" 0).
Proof.
  apply (parseInodeChange_renamed strconv.W64 "R" "/" "/a\0040b" "/c"
           Directory);
    [vm_compute; reflexivity | vm_compute; reflexivity |].
  exists "/a b", "/c". repeat split; vm_compute; reflexivity.
Defined.

(** ** Batches, row by row *)

Section BatchRows.

Variable w : strconv.WordSize.

Local Open Scope list_scope.

Lemma parseInodeChanges_loop_parseRows (lines : list (list string)) :
  forall done : list InodeChange,
    parseInodeChanges_loop w (length done) lines
      ((Some <$> done) ++ replicate (length lines) None)
    = match parseRows w lines with
      | Ok cs => Some (Some <$> (done ++ cs), None)
      | Err (k, e, l) => Some ([], Some (FailedLine (length done + k) e l))
      | Panic => None
      end.
Proof.
  induction lines as [|line lines IH]; intros done.
  - simpl. now rewrite !app_nil_r.
  - cbn [parseInodeChanges_loop parseRows].
    destruct (parseInodeChange w line) as [c|e|] eqn:Hline.
    + simpl length. cbn [replicate].
      rewrite insert_app_r_alt by (rewrite length_fmap; lia).
      rewrite length_fmap, Nat.sub_diag. cbn [insert list_insert].
      replace ((Some <$> done) ++ Some c :: replicate (length lines) None)
        with ((Some <$> (done ++ [c])) ++ replicate (length lines) None)
        by (rewrite fmap_app, <- app_assoc; reflexivity).
      replace (S (length done)) with (length (done ++ [c]))
        by (rewrite length_app; simpl; lia).
      rewrite IH. destruct (parseRows w lines) as [cs|[[k e] l]|].
      * now rewrite <- app_assoc.
      * rewrite length_app. simpl. do 4 f_equal. lia.
      * reflexivity.
    + now rewrite Nat.add_0_r.
    + reflexivity.
Qed.

Lemma parseInodeChanges_parseRows (lines : list (list string)) :
  parseInodeChanges w lines = batchOf (parseRows w lines).
Proof.
  unfold parseInodeChanges.
  pose proof (parseInodeChanges_loop_parseRows lines []) as H.
  simpl in H. rewrite H.
  destruct (parseRows w lines) as [cs|[[k e] l]|]; reflexivity.
Qed.

Lemma parseRows_app (l1 l2 : list (list string)) :
  parseRows w (l1 ++ l2)
  = match parseRows w l1 with
    | Ok cs1 =>
        match parseRows w l2 with
        | Ok cs2 => Ok (cs1 ++ cs2)
        | Err (k, e, l) => Err (length l1 + k, e, l)
        | Panic => Panic
        end
    | Err x => Err x
    | Panic => Panic
    end.
Proof.
  induction l1 as [|line l1 IH]; simpl.
  - destruct (parseRows w l2) as [cs|[[k e] l]|]; reflexivity.
  - destruct (parseInodeChange w line) as [c|e|]; try reflexivity.
    rewrite IH. destruct (parseRows w l1) as [cs1|[[k e] l]|]; try reflexivity.
    destruct (parseRows w l2) as [cs2|[[k e] l]|]; reflexivity.
Qed.

End BatchRows.

(** X6. Batches compose: when a first batch parses, parsing it followed by
    a second batch gives the changes of the first followed by those of the
    second, or the failure of the second with its line index shifted by
    the length of the first; when the first batch fails, whatever follows
    it is not looked at and the failure is the same. *)
Theorem parseInodeChanges_app (w : strconv.WordSize)
    (l1 l2 : list (list string)) :
  (forall cs1,
     parseInodeChanges w l1 = Some (cs1, None) ->
     (forall cs2, parseInodeChanges w l2 = Some (cs2, None) ->
        parseInodeChanges w (l1 ++ l2) = Some ((cs1 ++ cs2)%list, None))
     /\ (forall k e l,
           parseInodeChanges w l2 = Some ([], Some (FailedLine k e l)) ->
           parseInodeChanges w (l1 ++ l2)
           = Some ([], Some (FailedLine (length l1 + k) e l))))
  /\ (forall err,
        parseInodeChanges w l1 = Some ([], Some err) ->
        parseInodeChanges w (l1 ++ l2) = Some ([], Some err)).
Proof.
  rewrite !parseInodeChanges_parseRows, parseRows_app.
  destruct (parseRows w l1) as [cs1|[[k1 e1] x1]|]; simpl.
  - split; [|discriminate].
    intros cs [= <-]. split.
    + intros cs2. destruct (parseRows w l2) as [cs2'|[[k e] l]|]; simpl;
        try discriminate.
      intros [= <-]. now rewrite fmap_app.
    + intros k e l. destruct (parseRows w l2) as [cs2'|[[k' e'] l']|]; simpl;
        try discriminate.
      intros [= <- <- <-]. reflexivity.
  - split; [discriminate|]. intros err [= <-]. reflexivity.
  - split; discriminate.
Qed.

Lemma parseInodeChanges_app_witness :
  parseInodeChanges strconv.W64 ([["+"; "F"; "/a"]] ++ [["-"; "F"; "/b"]])
  = Some ([Some (mkInodeChange Created File "/a" "" 0);
           Some (mkInodeChange Removed File "/b" "" 0)], None)
  /\ parseInodeChanges strconv.W64 ([["+"; "F"; "/a"]] ++ [["-"; "F"]])
     = Some ([], Some (FailedLine 1 (MismatchFields "3" 2) ["-"; "F"]))
  /\ parseInodeChanges strconv.W64 ([["+"; "F"]] ++ [["-"; "F"; "/b"]])
     = Some ([], Some (FailedLine 0 (MismatchFields "3" 2) ["+"; "F"])).
Proof.
  split; [|split].
  - apply (proj1 (proj1 (parseInodeChanges_app strconv.W64
                           [["+"; "F"; "/a"]] [["-"; "F"; "/b"]])
                    [Some (mkInodeChange Created File "/a" "" 0)]
                    ltac:(vm_compute; reflexivity))).
    vm_compute. reflexivity.
  - apply (proj2 (proj1 (parseInodeChanges_app strconv.W64
                           [["+"; "F"; "/a"]] [["-"; "F"]])
                    [Some (mkInodeChange Created File "/a" "" 0)]
                    ltac:(vm_compute; reflexivity)) 0).
    vm_compute. reflexivity.
  - apply (proj2 (parseInodeChanges_app strconv.W64
                    [["+"; "F"]] [["-"; "F"; "/b"]])).
    vm_compute. reflexivity.
Defined.

(** ** More on captured output *)

Lemma all_bytes_app (p : ascii -> bool) (s t : string) :
  all_bytes p (s ++ t) = all_bytes p s && all_bytes p t.
Proof.
  induction s as [|c s IH]; [reflexivity|].
  rewrite string_app_cons. simpl. rewrite IH. apply andb_assoc.
Qed.

Lemma Run_succeeded (Command : string) (hasStdout : bool) (arg : list string)
    (x : Execution) :
  start_err x = None -> wait_err x = None ->
  Run Command hasStdout arg x
  = if hasStdout then Ok [] else tokenize (stdout x).
Proof. intros Hs Hw. unfold Run. now rewrite Hs, Hw. Qed.

Lemma Run_Ok_inv (Command : string) (hasStdout : bool) (arg : list string)
    (x : Execution) (rows : list (list string)) :
  Run Command hasStdout arg x = Ok rows ->
  rows = [] \/ tokenize (E := Error) (stdout x) = Ok rows.
Proof.
  unfold Run. destruct (start_err x); [discriminate|].
  destruct (wait_err x); [discriminate|].
  destruct hasStdout; [intros [= <-]; now left | now right].
Qed.

Lemma Split_from_count (sep : ascii) (s cur : string) :
  length (Split_from sep cur s) = S (countByte sep s).
Proof.
  revert cur. induction s as [|c s IH]; intros cur; simpl; [reflexivity|].
  case_bool_decide; simpl; rewrite IH; reflexivity.
Qed.

Lemma Split_from_no_sep (sep : ascii) (s cur : string) :
  countByte sep s = 0 -> Split_from sep cur s = [cur ++ s].
Proof.
  revert cur. induction s as [|c s IH]; intros cur; simpl.
  - now rewrite string_app_nil_r.
  - case_bool_decide; [discriminate|]. intros Hs. rewrite IH by exact Hs.
    unfold push. now rewrite string_app_assoc.
Qed.

Lemma Split_from_tail (sep : ascii) (s tail cur : string) :
  countByte sep tail = 0 ->
  Split_from sep cur (s ++ String sep tail)
  = (Split_from sep cur s ++ [tail])%list.
Proof.
  intros Htail. revert cur. induction s as [|c s IH]; intros cur.
  - rewrite string_app_nil_l. simpl.
    rewrite bool_decide_eq_true_2 by reflexivity.
    now rewrite (Split_from_no_sep sep tail "" Htail).
  - rewrite string_app_cons. simpl. case_bool_decide; now rewrite IH.
Qed.

(** X7. A command that succeeded without a sink of its own returns one row
    per line break of the captured output, and what follows the last line
    break is ignored: the rows are the fields of the lines before it. *)
Theorem Run_rows_per_line_break (Command : string) (arg : list string)
    (x : Execution) :
  start_err x = None -> wait_err x = None ->
  (exists rows, Run Command false arg x = Ok rows
                /\ length rows = countByte newline (stdout x))
  /\ (forall s tail,
        stdout x = s ++ String newline tail -> countByte newline tail = 0 ->
        Run Command false arg x = Ok (Fields <$> Split s newline)).
Proof.
  intros Hs Hw. rewrite (Run_succeeded _ _ _ _ Hs Hw). split.
  - rewrite tokenize_eq. eexists. split; [reflexivity|].
    rewrite length_fmap, length_take.
    unfold Split. rewrite Split_from_count. lia.
  - intros s tail -> Htail. rewrite tokenize_eq. unfold Split.
    rewrite (Split_from_tail _ _ _ _ Htail).
    rewrite length_app. simpl length.
    replace (length (Split_from newline "" s) + 1 - 1)
      with (length (Split_from newline "" s)) by lia.
    now rewrite take_app_length.
Qed.

Lemma Run_rows_per_line_break_witness :
  exists rows,
    Run "zfs" false ["list"]
      (mkExecution None None ("a b" ++ String newline "c") "") = Ok rows
    /\ length rows = 1.
Proof.
  apply (Run_rows_per_line_break "zfs" ["list"]
           (mkExecution None None ("a b" ++ String newline "c") ""));
    reflexivity.
Defined.

Lemma spaceWidth_ascii_space (c : ascii) (s : string) :
  isAsciiSpace c = true -> spaceWidth (String c s) = 1.
Proof. unfold isAsciiSpace, spaceWidth. now intros ->. Qed.

Lemma spaceWidth_0_not_space (c : ascii) (s : string) :
  spaceWidth (String c s) = 0 -> isAsciiSpace c = false.
Proof.
  destruct (isAsciiSpace c) eqn:Hc; [|reflexivity].
  now rewrite (spaceWidth_ascii_space c s Hc).
Qed.

Lemma push_isField (cur : option string) (c : ascii) :
  (forall f, cur = Some f -> isField f) -> isAsciiSpace c = false ->
  isField (push (default "" cur) c).
Proof.
  intros Hcur Hc. split; [apply push_nonempty|].
  unfold push. rewrite all_bytes_app. simpl. rewrite Hc. simpl.
  destruct cur as [f|]; simpl; [|reflexivity].
  rewrite (proj2 (Hcur f eq_refl)). reflexivity.
Qed.

Lemma Fields_from_isField (s : string) : forall skip cur,
  (forall f, cur = Some f -> isField f) ->
  Forall isField (Fields_from skip cur s).
Proof.
  induction s as [|c s IH]; intros skip cur Hcur.
  - simpl. destruct cur as [f|]; simpl; [|constructor].
    constructor; [now apply Hcur | constructor].
  - cbn [Fields_from]. destruct skip as [|k]; [|now apply IH].
    destruct (spaceWidth (String c s)) as [|k] eqn:Hw.
    + apply IH. intros f [= <-].
      apply push_isField; [exact Hcur | exact (spaceWidth_0_not_space c s Hw)].
    + apply Forall_app. split.
      * destruct cur as [f|]; simpl; [|constructor].
        constructor; [now apply Hcur | constructor].
      * apply IH. discriminate.
Qed.

Lemma Run_rows_fields (Command : string) (hasStdout : bool)
    (arg : list string) (x : Execution) (rows : list (list string)) :
  Run Command hasStdout arg x = Ok rows ->
  Forall (Forall isField) rows.
Proof.
  intros Hok. destruct (Run_Ok_inv _ _ _ _ _ Hok) as [->|Htok]; [constructor|].
  rewrite tokenize_eq in Htok. injection Htok as <-.
  apply Forall_fmap, Forall_true. intros line.
  apply Fields_from_isField. discriminate.
Qed.

(** X8. Whatever a command prints, no field of a row returned by [Run] is
    empty or holds a tab, a line break, a space or another ASCII
    white-space byte. *)
Theorem Run_fields_wellformed (Command : string) (hasStdout : bool)
    (arg : list string) (x : Execution) (rows : list (list string)) :
  Run Command hasStdout arg x = Ok rows ->
  Forall (Forall isField) rows.
Proof. exact (Run_rows_fields Command hasStdout arg x rows). Qed.

Lemma Run_fields_wellformed_witness :
  Forall (Forall isField) [["a"; "b"]; ["c"]].
Proof.
  apply (Run_fields_wellformed "zfs" false ["list"]
           (mkExecution None None
              (" a  b " ++ String newline ("c" ++ String newline "")) "")).
  vm_compute. reflexivity.
Defined.

Lemma spaceWidth_fieldByte (c : ascii) (s : string) :
  isFieldByte c = true -> spaceWidth (String c s) = 0.
Proof.
  destruct c as [[] [] [] [] [] [] [] []]; try discriminate; intros _;
    destruct s as [|c1 [|c2 s]]; reflexivity.
Qed.

Lemma fieldByte_not_newline (f : string) :
  all_bytes isFieldByte f = true -> countByte newline f = 0.
Proof.
  induction f as [|c f IH]; [reflexivity|]. simpl.
  intros H. apply andb_prop in H as [Hc Hf].
  rewrite IH by exact Hf.
  case_bool_decide as Hn; [subst c; discriminate Hc | reflexivity].
Qed.

Lemma Fields_from_plain (f rest : string) (cur : option string) :
  isPlainField f ->
  Fields_from 0 cur (f ++ rest)
  = Fields_from 0 (Some (default "" cur ++ f)) rest.
Proof.
  intros [Hne Hall]. revert cur.
  induction f as [|c f IH]; intros cur; [congruence|].
  simpl in Hall. apply andb_prop in Hall as [Hc Hf].
  rewrite string_app_cons. cbn [Fields_from].
  rewrite (spaceWidth_fieldByte c _ Hc).
  destruct f as [|c' f].
  - rewrite string_app_nil_l. reflexivity.
  - rewrite (IH ltac:(discriminate) Hf). simpl default. unfold push.
    now rewrite string_app_assoc.
Qed.

Lemma Fields_from_tab (f rest : string) :
  Fields_from 0 (Some f) (String tab rest)
  = f :: Fields_from 0 None rest.
Proof. reflexivity. Qed.

Lemma Fields_renderRow (row : list string) :
  Forall isPlainField row -> Fields (renderRow row) = row.
Proof.
  unfold Fields, renderRow. induction 1 as [|f row Hf Hrow IH]; [reflexivity|].
  destruct row as [|g row].
  - simpl. rewrite <- (string_app_nil_r f) at 1.
    rewrite (Fields_from_plain f "" None Hf). reflexivity.
  - change (String.concat (String tab "") (f :: g :: row))
      with (f ++ String tab (String.concat (String tab "") (g :: row))).
    rewrite (Fields_from_plain f _ None Hf). simpl default.
    rewrite string_app_nil_l, Fields_from_tab, IH. reflexivity.
Qed.

Lemma renderRow_no_newline (row : list string) :
  Forall isPlainField row -> countByte newline (renderRow row) = 0.
Proof.
  unfold renderRow. induction 1 as [|f row [_ Hf] Hrow IH]; [reflexivity|].
  destruct row as [|g row].
  - simpl. now apply fieldByte_not_newline.
  - change (String.concat (String tab "") (f :: g :: row))
      with (f ++ String tab (String.concat (String tab "") (g :: row))).
    rewrite countByte_app, (fieldByte_not_newline f Hf). simpl.
    exact IH.
Qed.

Lemma Split_from_line (sep : ascii) (line rest cur : string) :
  countByte sep line = 0 ->
  Split_from sep cur (line ++ String sep rest)
  = (cur ++ line) :: Split_from sep "" rest.
Proof.
  revert cur. induction line as [|c line IH]; intros cur Hl.
  - rewrite string_app_nil_l, string_app_nil_r. cbn [Split_from].
    now rewrite bool_decide_eq_true_2 by reflexivity.
  - cbn [countByte] in Hl. case_bool_decide as Hc; [discriminate|].
    rewrite string_app_cons. cbn [Split_from].
    rewrite (bool_decide_eq_false_2 _ Hc).
    rewrite IH by exact Hl. unfold push. now rewrite string_app_assoc.
Qed.

Lemma Split_render (rows : list (list string)) :
  Forall (Forall isPlainField) rows ->
  Split (render rows) newline = ((renderRow <$> rows) ++ [""])%list.
Proof.
  unfold Split. induction 1 as [|row rows Hrow Hrows IH]; [reflexivity|].
  simpl render.
  rewrite (Split_from_line newline _ _ "" (renderRow_no_newline row Hrow)).
  rewrite IH. reflexivity.
Qed.

Lemma tokenize_of_render {E} (rows : list (list string)) :
  Forall (Forall isPlainField) rows ->
  @tokenize E (render rows) = Ok rows.
Proof.
  intros Hrows. rewrite tokenize_eq, (Split_render rows Hrows).
  rewrite length_app, length_fmap. simpl length.
  replace (length rows + 1 - 1) with (length (renderRow <$> rows))
    by (rewrite length_fmap; lia).
  rewrite take_app_length. f_equal.
  induction Hrows as [|row rows Hrow Hrows IH]; [reflexivity|].
  rewrite !fmap_cons, IH, (Fields_renderRow row Hrow). reflexivity.
Qed.

(** X9. The rows of a table are read back as they were printed: for rows
    whose fields are non-empty runs of printable ASCII bytes, printing
    each row with tabs between its fields and a line break at its end and
    tokenizing the text gives the same rows, a row of no field included. *)
Theorem tokenize_render {E} (rows : list (list string)) :
  Forall (Forall isPlainField) rows ->
  @tokenize E (render rows) = Ok rows.
Proof. exact (tokenize_of_render rows). Qed.

Lemma tokenize_render_witness :
  @tokenize error (render [["tank/a"; "1K"; "-"]; []; ["tank/b"]])
  = Ok [["tank/a"; "1K"; "-"]; []; ["tank/b"]].
Proof.
  apply tokenize_render.
  repeat constructor; try discriminate.
Defined.

(** ** Numeric fields *)

Lemma digitVal_below_ten (c : ascii) (d : N) :
  strconv.digitVal c = Some d -> (10 <=? d)%N = false -> isDigit c = true.
Proof.
  destruct c as [[] [] [] [] [] [] [] []]; vm_compute; intros H;
    try discriminate H; injection H as <-; vm_compute; congruence.
Qed.

Lemma parseDigits_decimal_inr (cutoff maxVal : N) (s : string) :
  forall n v,
    strconv.parseDigits 10 cutoff maxVal s n = inr v ->
    all_bytes isDigit s = true.
Proof.
  induction s as [|c s IH]; intros n v; [reflexivity|]. simpl.
  destruct (strconv.digitVal c) as [d|] eqn:Hd; [|discriminate].
  destruct (10 <=? d)%N eqn:H10; [discriminate|].
  destruct (cutoff <=? n)%N; [discriminate|].
  destruct (_ || _); [discriminate|].
  intros Hrec. rewrite (digitVal_below_ten c d Hd H10). simpl.
  exact (IH _ _ Hrec).
Qed.

Lemma ParseUint_decimal64 (value : string) :
  value <> "" -> all_bytes isDigit value = true ->
  strconv.ParseUint value 10 64
  = if (decimalValue value <=? strconv.maxUint64)%N
    then inr (decimalValue value)
    else inl (mkNumError "ParseUint" value ErrRange).
Proof.
  intros Hne Hall. unfold strconv.ParseUint.
  destruct value as [|c value]; [congruence|].
  change (strconv.maxUint64 / 10 + 1)%N with cutoff10.
  change ((2 ^ 64 - 1) mod 2 ^ 64)%N with strconv.maxUint64.
  rewrite parseDigits_decimal;
    [| vm_compute; reflexivity | apply N.le_0_l | exact Hall].
  fold (decimalValue (String c value)).
  now destruct (_ <=? _)%N.
Qed.

(** X10. [setUint] accepts the sentinel and the decimal numerals of 64
    bits, and nothing else: ["-"] sets the field to zero; a non-empty
    string of decimal digits whose value is below 2^64 sets the field to
    that value; any other value returns an error and leaves the field as
    it was. *)
Theorem setUint_accepts (field : N) (value : string) :
  (value = "-" -> setUint field value = (0%N, None))
  /\ (value <> "" -> all_bytes isDigit value = true ->
      (decimalValue value <= strconv.maxUint64)%N ->
      setUint field value = (decimalValue value, None))
  /\ (value <> "-" ->
      value = "" \/ all_bytes isDigit value = false
      \/ (strconv.maxUint64 < decimalValue value)%N ->
      exists e, setUint field value = (field, Some e)).
Proof.
  unfold setUint. split; [|split].
  - intros ->. reflexivity.
  - intros Hne Hall Hv.
    rewrite bool_decide_eq_true_2 by (intros ->; discriminate Hall).
    rewrite ParseUint_decimal64 by assumption.
    destruct (N.leb_spec (decimalValue value) strconv.maxUint64);
      [reflexivity | lia].
  - intros Hs Hbad. rewrite bool_decide_eq_true_2 by exact Hs.
    destruct (all_bytes isDigit value) eqn:Hall.
    + destruct Hbad as [->|[?|Hbig]]; [eauto | discriminate |].
      rewrite ParseUint_decimal64;
        [| intros ->; vm_compute in Hbig; discriminate | exact Hall].
      destruct (N.leb_spec (decimalValue value) strconv.maxUint64);
        [lia | eauto].
    + destruct (strconv.ParseUint value 10 64) as [e|v] eqn:Hp; [eauto|].
      exfalso. unfold strconv.ParseUint in Hp.
      destruct value as [|c value]; [discriminate|].
      destruct (strconv.parseDigits _ _ _ _ _) as [k|n] eqn:Hd;
        [discriminate|].
      apply parseDigits_decimal_inr in Hd. congruence.
Qed.

Lemma setUint_accepts_witness :
  setUint 7 "-" = (0%N, None)
  /\ setUint 7 "18446744073709551615" = (18446744073709551615%N, None)
  /\ (exists e, setUint 7 "18446744073709551616" = (7%N, Some e))
  /\ (exists e, setUint 7 "+1" = (7%N, Some e)).
Proof.
  destruct (setUint_accepts 7 "-") as (H1 & _ & _).
  destruct (setUint_accepts 7 "18446744073709551615") as (_ & H2 & _).
  destruct (setUint_accepts 7 "18446744073709551616") as (_ & _ & H3).
  destruct (setUint_accepts 7 "+1") as (_ & _ & H4).
  split; [exact (H1 eq_refl)|].
  split; [apply H2; [discriminate | reflexivity | vm_compute; discriminate]|].
  split.
  - apply H3; [discriminate | right; right; vm_compute; reflexivity].
  - apply H4; [discriminate | right; left; reflexivity].
Defined.

(** ** Dataset names *)

Lemma Split_two (sep : ascii) (a b : string) :
  countByte sep a = 0 -> countByte sep b = 0 ->
  Split (a ++ String sep b) sep = [a; b].
Proof.
  intros Ha Hb. unfold Split.
  rewrite (Split_from_line sep a b "" Ha), string_app_nil_l.
  now rewrite (Split_from_no_sep sep b "" Hb), string_app_nil_l.
Qed.

(** X11. [DataSetName] gives back the short name a snapshot or bookmark
    was named with: for a name made of a dataset path, the mark of the
    type and a short name, neither holding the mark, the result is the
    short name.  It panics when the name of a snapshot or bookmark holds
    no mark, and is empty for any other type. *)
Theorem DataSetName_short_name (d : Dataset) :
  (forall fs name,
     d Type_ = DatasetSnapshot -> d Name = fs ++ String "@" name ->
     countByte "@" fs = 0 -> countByte "@" name = 0 ->
     DataSetName d = Ok name)
  /\ (forall fs name,
        d Type_ = DatasetBookmark -> d Name = fs ++ String "#" name ->
        countByte "#" fs = 0 -> countByte "#" name = 0 ->
        DataSetName d = Ok name)
  /\ (d Type_ = DatasetSnapshot -> countByte "@" (d Name) = 0 ->
      DataSetName d = Panic)
  /\ (d Type_ = DatasetBookmark -> countByte "#" (d Name) = 0 ->
      DataSetName d = Panic)
  /\ (d Type_ <> DatasetSnapshot -> d Type_ <> DatasetBookmark ->
      DataSetName d = Ok "").
Proof.
  unfold DataSetName. repeat split.
  - intros fs name Ht Hn Hfs Hname.
    rewrite (bool_decide_eq_true_2 _ Ht), Hn, (Split_two _ _ _ Hfs Hname).
    reflexivity.
  - intros fs name Ht Hn Hfs Hname.
    rewrite bool_decide_eq_false_2 by (rewrite Ht; discriminate).
    rewrite (bool_decide_eq_true_2 _ Ht), Hn, (Split_two _ _ _ Hfs Hname).
    reflexivity.
  - intros Ht Hn. rewrite (bool_decide_eq_true_2 _ Ht). unfold Split.
    now rewrite (Split_from_no_sep _ _ "" Hn).
  - intros Ht Hn.
    rewrite bool_decide_eq_false_2 by (rewrite Ht; discriminate).
    rewrite (bool_decide_eq_true_2 _ Ht). unfold Split.
    now rewrite (Split_from_no_sep _ _ "" Hn).
  - intros Hs Hb.
    now rewrite (bool_decide_eq_false_2 _ Hs), (bool_decide_eq_false_2 _ Hb).
Qed.

Lemma DataSetName_short_name_witness :
  DataSetName (<[Type_ := "snapshot"]> (<[Name := "tank/fs@monday"]>
                 (fun _ => ""))) = Ok "monday"
  /\ DataSetName (<[Type_ := "snapshot"]> (<[Name := "tank/fs"]>
                    (fun _ => ""))) = Panic.
Proof.
  split.
  - apply (proj1 (DataSetName_short_name _) "tank/fs" "monday");
      reflexivity.
  - apply (proj1 (proj2 (proj2 (DataSetName_short_name _)))); reflexivity.
Defined.

(** ** Rows onto records *)

Lemma parseLine_mapped_eq (GOOS : string) (DsPropList line : list string)
    (ds : Dataset) :
  length line = length DsPropList ->
  columnsRead GOOS <= length DsPropList ->
  parseLine GOOS DsPropList line ds = (mapped GOOS line ds, Ok tt).
Proof.
  intros Heq Hcols. unfold parseLine.
  rewrite bool_decide_eq_false_2 by (intros Hne; apply Hne; exact Heq).
  rewrite <- Heq in Hcols. clear Heq. unfold columnsRead in Hcols.
  destruct line as [|x0 [|x1 [|x2 [|x3 [|x4 [|x5 [|x6 [|x7 [|x8 rest]]]]]]]]];
    try (case_bool_decide; simpl in Hcols; lia).
  unfold setAt, bind, at_, index. simpl lookup. cbv beta iota.
  repeat (rewrite setString_sentinel; cbv beta iota).
  destruct (bool_decide (GOOS = "solaris")) eqn:Hos.
  - apply bool_decide_eq_true in Hos.
    rewrite (bool_decide_eq_false_2 (GOOS <> "solaris")) by tauto.
    unfold ret. f_equal. apply functional_extensionality. intros field.
    unfold mapped, column. rewrite (bool_decide_eq_true_2 _ Hos).
    destruct field; reflexivity.
  - apply bool_decide_eq_false in Hos.
    rewrite (bool_decide_eq_true_2 (GOOS <> "solaris")) by exact Hos.
    destruct rest as [|x9 [|x10 [|x11 rest]]]; simpl in Hcols; try lia.
    simpl lookup. cbv beta iota.
    repeat (rewrite setString_sentinel; cbv beta iota).
    f_equal. apply functional_extensionality. intros field.
    unfold mapped, column. rewrite (bool_decide_eq_false_2 _ Hos).
    destruct field; reflexivity.
Qed.

Lemma mapped_mapped (GOOS : string) (l1 l2 : list string) (ds : Dataset) :
  mapped GOOS l2 (mapped GOOS l1 ds) = mapped GOOS l2 ds.
Proof.
  apply functional_extensionality. intros field. unfold mapped.
  now destruct (column GOOS field).
Qed.

Lemma mapped_newDataset (GOOS : string) (row : list string) (name : string) :
  mapped GOOS row (newDataset name) = datasetOf GOOS row.
Proof.
  apply functional_extensionality. intros field.
  unfold datasetOf, mapped, newDataset. destruct field; reflexivity.
Qed.

(** X12. The last row wins: once a row of the right length has been mapped
    onto a record, mapping a second such row gives the record that the
    second row alone gives, and mapping the same row twice changes
    nothing more. *)
Theorem parseLine_last_wins (GOOS : string) (DsPropList l1 l2 : list string)
    (ds : Dataset) :
  columnsRead GOOS <= length DsPropList ->
  length l1 = length DsPropList -> length l2 = length DsPropList ->
  parseLine GOOS DsPropList l2 (fst (parseLine GOOS DsPropList l1 ds))
  = parseLine GOOS DsPropList l2 ds
  /\ parseLine GOOS DsPropList l1 (fst (parseLine GOOS DsPropList l1 ds))
     = parseLine GOOS DsPropList l1 ds.
Proof.
  intros Hcols H1 H2.
  rewrite !parseLine_mapped_eq by assumption. simpl.
  now rewrite !mapped_mapped.
Qed.

Lemma parseLine_last_wins_witness :
  let P := ["name"; "origin"; "used"; "available"; "mountpoint";
            "compression"; "type"; "volsize"; "quota"] in
  let l1 := ["tank"; "-"; "1K"; "2G"; "/tank"; "lz4"; "filesystem"; "-"; "-"] in
  let l2 := ["tank"; "-"; "3K"; "1G"; "/tank"; "off"; "filesystem"; "-"; "5G"] in
  parseLine "solaris" P l2 (fst (parseLine "solaris" P l1 (fun _ => "")))
  = parseLine "solaris" P l2 (fun _ => "").
Proof.
  intros P l1 l2.
  apply (proj1 (parseLine_last_wins "solaris" P l1 l2 (fun _ => "")
                  ltac:(vm_compute; lia) eq_refl eq_refl)).
Defined.

(** ** Listings *)

Section ListingProps.

Variable GOOS : string.
Variable DsPropList : list string.
Hypothesis Hcols : columnsRead GOOS <= length DsPropList.

Local Open Scope list_scope.

Lemma columnsRead_pos : 9 <= columnsRead GOOS.
Proof. unfold columnsRead. case_bool_decide; lia. Qed.

Lemma isListingRow_head (row : list string) :
  isListingRow DsPropList row ->
  exists l0 rest, row = l0 :: rest /\ l0 <> "".
Proof.
  intros [Hlen Hne]. pose proof columnsRead_pos.
  destruct row as [|l0 rest]; [simpl in Hlen; lia|].
  exists l0, rest. split; [reflexivity|]. intros ->. now apply Hne.
Qed.

Lemma parseLine_ptr_last (ds0 : list Dataset) (d : Dataset)
    (line : list string) :
  length line = length DsPropList ->
  parseLine_ptr GOOS DsPropList (ds0 ++ [d]) (Some (length ds0)) line
  = (ds0 ++ [mapped GOOS line d], Ok tt).
Proof.
  intros Hlen. unfold parseLine_ptr.
  rewrite (list_lookup_middle ds0 [] d (length ds0) eq_refl).
  rewrite (parseLine_mapped_eq GOOS DsPropList line d Hlen Hcols).
  rewrite insert_app_r_alt by lia. rewrite Nat.sub_diag. reflexivity.
Qed.

Lemma groupRows_runs (out : list (list string)) :
  forall (prev : list string) (p0 : string) (ds0 : list Dataset),
    prev !! 0 = Some p0 ->
    Forall (isListingRow DsPropList) out ->
    groupRows GOOS DsPropList out p0 (Some (length ds0))
      (ds0 ++ [datasetOf GOOS prev])
    = Ok (ds0 ++ (datasetOf GOOS <$> lastOfRuns (prev :: out))).
Proof.
  induction out as [|row out IH]; intros prev p0 ds0 Hp0 Hout.
  - reflexivity.
  - inversion_clear Hout as [|? ? Hrow Hout']; rename Hout' into Hout.
    destruct (isListingRow_head row Hrow) as (l0 & rest & -> & Hl0).
    destruct Hrow as [Hlen _].
    cbn [groupRows]. unfold index. simpl lookup. cbv beta iota.
    unfold enterRow. cbn [lastOfRuns]. simpl lookup. rewrite Hp0.
    destruct (decide (p0 = l0)) as [->|Hne].
    + rewrite bool_decide_eq_false_2 by tauto.
      rewrite bool_decide_eq_true_2 by reflexivity.
      cbn [fst snd]. rewrite (parseLine_ptr_last _ _ _ Hlen).
      unfold datasetOf at 1. rewrite mapped_mapped.
      fold (datasetOf GOOS (l0 :: rest)).
      exact (IH (l0 :: rest) l0 ds0 eq_refl Hout).
    + rewrite bool_decide_eq_true_2 by exact Hne.
      rewrite bool_decide_eq_false_2 by congruence.
      cbn [fst snd]. rewrite (parseLine_ptr_last _ _ _ Hlen).
      rewrite mapped_newDataset.
      rewrite (IH (l0 :: rest) l0 (ds0 ++ [datasetOf GOOS prev]) eq_refl Hout).
      rewrite fmap_cons, <- app_assoc. reflexivity.
Qed.

Lemma groupRows_listing (out : list (list string)) :
  Forall (isListingRow DsPropList) out ->
  groupRows GOOS DsPropList out "" None []
  = Ok (datasetOf GOOS <$> lastOfRuns out).
Proof.
  intros Hout. destruct out as [|row out]; [reflexivity|].
  inversion_clear Hout as [|? ? Hrow Hout']; rename Hout' into Hout.
  destruct (isListingRow_head row Hrow) as (l0 & rest & -> & Hl0).
  destruct Hrow as [Hlen _].
  cbn [groupRows]. unfold index. simpl lookup. cbv beta iota.
  unfold enterRow. rewrite bool_decide_eq_true_2 by congruence.
  cbn [fst snd]. simpl length.
  rewrite (parseLine_ptr_last [] _ _ Hlen). rewrite mapped_newDataset.
  exact (groupRows_runs out (l0 :: rest) l0 [] eq_refl Hout).
Qed.

Lemma groupRows_empty_row (pre post : list (list string)) :
  forall name ds datasets,
    pointerOk name ds datasets ->
    Forall (isListingRow DsPropList) pre ->
    groupRows GOOS DsPropList (pre ++ [] :: post) name ds datasets = Panic.
Proof.
  induction pre as [|row pre IH]; intros name ds datasets Hptr Hpre.
  - reflexivity.
  - inversion_clear Hpre as [|? ? Hrow Hpre']; rename Hpre' into Hpre.
    destruct (isListingRow_head row Hrow) as (l0 & rest & -> & Hl0).
    destruct Hrow as [Hlen _].
    rewrite <- app_comm_cons. cbn [groupRows]. unfold index.
    simpl lookup. cbv beta iota. unfold enterRow.
    case_bool_decide as Hname; cbn [fst snd].
    + rewrite (parseLine_ptr_last _ _ _ Hlen).
      apply IH; [|exact Hpre]. right. exists (length datasets).
      split; [reflexivity|]. rewrite length_app. simpl. lia.
    + destruct Hptr as [[-> ->]|(i & -> & Hi)]; [congruence|].
      unfold parseLine_ptr.
      destruct (lookup_lt_is_Some_2 datasets i Hi) as [d Hd]. rewrite Hd.
      rewrite (parseLine_mapped_eq GOOS DsPropList _ d Hlen Hcols).
      apply IH; [|exact Hpre]. right. exists i.
      split; [reflexivity|]. now rewrite length_insert.
Qed.

End ListingProps.

(** ** Listings, as their callers see them *)

Section ListingOps.

Variable GOOS : string.
Variable DsPropList : list string.
Hypothesis Hcols : columnsRead GOOS <= length DsPropList.

Local Open Scope list_scope.

Lemma isField_nonempty_head (row : list string) :
  Forall isField row -> row !! 0 <> Some "".
Proof.
  intros Hrow Hhead. apply (Forall_lookup_1 _ _ _ _ Hrow) in Hhead.
  now destruct Hhead as [Hne _].
Qed.

Lemma listing_rows (rows : list (list string)) :
  Forall (Forall isField) rows ->
  Forall (fun row => length row = length DsPropList) rows ->
  Forall (isListingRow DsPropList) rows.
Proof.
  intros Hf Hl. induction rows as [|row rows IH]; [constructor|].
  inversion_clear Hf. inversion_clear Hl.
  constructor; [|now apply IH].
  split; [assumption | now apply isField_nonempty_head].
Qed.

Lemma parseLine_mismatch (line : list string) (ds : Dataset) :
  length line <> length DsPropList ->
  parseLine GOOS DsPropList line ds = (ds, Err datasetMismatch).
Proof.
  intros Hne. unfold parseLine. now rewrite bool_decide_eq_true_2 by exact Hne.
Qed.

Lemma groupRows_bad_row (pre post : list (list string)) (bad : list string) :
  bad <> [] -> length bad <> length DsPropList ->
  forall name ds datasets,
    pointerOk name ds datasets ->
    Forall (isListingRow DsPropList) pre ->
    groupRows GOOS DsPropList (pre ++ bad :: post) name ds datasets
    = Err datasetMismatch.
Proof.
  intros Hbad Hlen.
  induction pre as [|row pre IH]; intros name ds datasets Hptr Hpre.
  - destruct bad as [|l0 rest]; [congruence|].
    cbn [app groupRows]. unfold index. simpl lookup. cbv beta iota.
    unfold enterRow. case_bool_decide as Hname; cbn [fst snd].
    + unfold parseLine_ptr.
      rewrite (list_lookup_middle datasets [] _ (length datasets) eq_refl).
      now rewrite (parseLine_mismatch _ _ Hlen).
    + unfold parseLine_ptr.
      destruct Hptr as [[-> ->]|(i & -> & Hi)].
      * now rewrite bool_decide_eq_true_2 by exact Hlen.
      * destruct (lookup_lt_is_Some_2 datasets i Hi) as [d Hd]. rewrite Hd.
        now rewrite (parseLine_mismatch _ _ Hlen).
  - inversion_clear Hpre as [|? ? Hrow Hpre'].
    destruct (isListingRow_head GOOS DsPropList Hcols row Hrow)
      as (l0 & rest & -> & Hl0).
    destruct Hrow as [Hrlen _].
    rewrite <- app_comm_cons. cbn [groupRows]. unfold index.
    simpl lookup. cbv beta iota. unfold enterRow.
    case_bool_decide as Hname; cbn [fst snd].
    + rewrite (parseLine_ptr_last GOOS DsPropList Hcols _ _ _ Hrlen).
      apply IH; [|exact Hpre']. right. exists (length datasets).
      split; [reflexivity|]. rewrite length_app. simpl. lia.
    + destruct Hptr as [[-> ->]|(i & -> & Hi)]; [congruence|].
      unfold parseLine_ptr.
      destruct (lookup_lt_is_Some_2 datasets i Hi) as [d Hd]. rewrite Hd.
      rewrite (parseLine_mapped_eq GOOS DsPropList _ d Hrlen Hcols).
      apply IH; [|exact Hpre']. right. exists i.
      split; [reflexivity|]. now rewrite length_insert.
Qed.

Lemma grouped_listing (out : list (list string)) :
  Forall (Forall isField) out ->
  Forall (fun row => length row = length DsPropList) out ->
  grouped GOOS DsPropList out = Ok (datasetOf GOOS <$> lastOfRuns out).
Proof.
  intros Hf Hl. unfold grouped.
  now rewrite (groupRows_listing GOOS DsPropList Hcols out
                 (listing_rows out Hf Hl)).
Qed.

Lemma grouped_bad_row (pre post : list (list string)) (bad : list string) :
  Forall (Forall isField) pre ->
  Forall (fun row => length row = length DsPropList) pre ->
  bad <> [] -> length bad <> length DsPropList ->
  grouped GOOS DsPropList (pre ++ bad :: post)
  = Err (OutputRejected datasetMismatch).
Proof.
  intros Hf Hl Hbad Hlen. unfold grouped.
  rewrite (groupRows_bad_row pre post bad Hbad Hlen "" None []);
    [reflexivity | now left | now apply listing_rows].
Qed.

Lemma grouped_empty_row (pre post : list (list string)) :
  Forall (Forall isField) pre ->
  Forall (fun row => length row = length DsPropList) pre ->
  grouped GOOS DsPropList (pre ++ [] :: post) = Panic.
Proof.
  intros Hf Hl. unfold grouped.
  rewrite (groupRows_empty_row GOOS DsPropList Hcols pre post "" None []);
    [reflexivity | now left | now apply listing_rows].
Qed.

Lemma parseLines_mapped (out : list (list string)) : forall ds : Dataset,
  Forall (fun row => length row = length DsPropList) out ->
  parseLines GOOS DsPropList out ds
  = (match list.last out with
     | Some row => mapped GOOS row ds
     | None => ds
     end, Ok tt).
Proof.
  induction out as [|row out IH]; intros ds Hl; [reflexivity|].
  inversion_clear Hl as [|? ? Hrow Hout].
  cbn [parseLines].
  rewrite (parseLine_mapped_eq GOOS DsPropList row ds Hrow Hcols).
  rewrite (IH _ Hout). destruct out as [|row' out]; [reflexivity|].
  rewrite last_cons_cons.
  destruct (list.last (row' :: out)) as [r|] eqn:Hlast.
  - now rewrite mapped_mapped.
  - now apply last_None in Hlast.
Qed.

Lemma parseLines_bad_row (pre post : list (list string)) (bad : list string) :
  forall ds : Dataset,
    Forall (fun row => length row = length DsPropList) pre ->
    length bad <> length DsPropList ->
    snd (parseLines GOOS DsPropList (pre ++ bad :: post) ds)
    = Err datasetMismatch.
Proof.
  induction pre as [|row pre IH]; intros ds Hpre Hlen.
  - cbn [app parseLines]. now rewrite (parseLine_mismatch _ _ Hlen).
  - inversion_clear Hpre as [|? ? Hrow Hpre'].
    rewrite <- app_comm_cons. cbn [parseLines].
    rewrite (parseLine_mapped_eq GOOS DsPropList row ds Hrow Hcols).
    now apply IH.
Qed.

End ListingOps.

(** X13. [listByType] groups consecutive rows by their first field: when
    the command returns rows that all have as many fields as the platform
    has columns, the result has one dataset for each run of consecutive
    rows with the same first field, in the order of the rows, and each is
    the record of the last row of its run.  The first row with another
    number of fields makes the whole listing fail with the mismatch
    error, and no dataset is returned. *)
Theorem listByType_groups (GOOS : string) (DsPropList : list string)
    (t filter : string) (depth : Z) (recurse : bool) (x : Execution)
    (out : list (list string)) :
  columnsRead GOOS <= length DsPropList ->
  Run "zfs" false (listByType_args DsPropList t filter depth recurse) x
  = Ok out ->
  (Forall (fun row => length row = length DsPropList) out ->
   listByType GOOS DsPropList t filter depth recurse x
   = Ok (datasetOf GOOS <$> lastOfRuns out))
  /\ (forall pre bad post,
        out = (pre ++ bad :: post)%list ->
        Forall (fun row => length row = length DsPropList) pre ->
        bad <> [] -> length bad <> length DsPropList ->
        listByType GOOS DsPropList t filter depth recurse x
        = Err (OutputRejected datasetMismatch)).
Proof.
  intros Hcols Hrun. pose proof (Run_rows_fields _ _ _ _ _ Hrun) as Hf.
  unfold listByType. rewrite Hrun. split.
  - intros Hl. now apply grouped_listing.
  - intros pre bad post -> Hl Hbad Hlen.
    apply grouped_bad_row; try assumption.
    now apply Forall_app in Hf as [Hf _].
Qed.

Lemma listByType_groups_witness :
  let P := ["name"; "origin"; "used"; "available"; "mountpoint";
            "compression"; "type"; "volsize"; "quota"] in
  let r1 := ["tank"; "-"; "1K"; "2G"; "/tank"; "lz4"; "filesystem"; "-"; "-"] in
  let r2 := ["tank"; "-"; "3K"; "1G"; "/tank"; "off"; "filesystem"; "-"; "5G"] in
  let r3 := ["tank/a"; "-"; "1K"; "1G"; "/a"; "off"; "filesystem"; "-"; "-"] in
  let x := mkExecution None None (render [r1; r2; r3]) "" in
  listByType "solaris" P "filesystem" "" (-1) false x
  = Ok [datasetOf "solaris" r2; datasetOf "solaris" r3]
  /\ listByType "solaris" P "filesystem" "" (-1) false
       (mkExecution None None (render [r1; ["tank"; "-"]; r3]) "")
     = Err (OutputRejected datasetMismatch).
Proof.
  intros P r1 r2 r3 x. split.
  - apply (proj1 (listByType_groups "solaris" P "filesystem" "" (-1) false x
                    [r1; r2; r3] ltac:(vm_compute; lia)
                    ltac:(vm_compute; reflexivity))).
    repeat constructor.
  - apply (proj2 (listByType_groups "solaris" P "filesystem" "" (-1) false
                    (mkExecution None None (render [r1; ["tank"; "-"]; r3]) "")
                    [r1; ["tank"; "-"]; r3] ltac:(vm_compute; lia)
                    ltac:(vm_compute; reflexivity))
             [r1] ["tank"; "-"] [r3]);
      [reflexivity | repeat constructor | discriminate | simpl; lia].
Defined.

(** X14. A row with no field, which is what a blank line of output
    becomes, makes a listing panic: if the rows before it all have the
    platform's number of fields, [listByType] and [Children] end in a
    run-time panic at the read of the row's first field. *)
Theorem listing_blank_row_panics (GOOS : string) (DsPropList : list string)
    (x : Execution) (pre post : list (list string)) :
  columnsRead GOOS <= length DsPropList ->
  Forall (fun row => length row = length DsPropList) pre ->
  (forall t filter depth recurse,
     Run "zfs" false (listByType_args DsPropList t filter depth recurse) x
     = Ok (pre ++ [] :: post)%list ->
     listByType GOOS DsPropList t filter depth recurse x = Panic)
  /\ (forall d depth,
        Run "zfs" false (Children_args DsPropList d depth) x
        = Ok (pre ++ [] :: post)%list ->
        Children GOOS DsPropList d depth x = Panic).
Proof.
  intros Hcols Hl. split.
  - intros t filter depth recurse Hrun.
    pose proof (Run_rows_fields _ _ _ _ _ Hrun) as Hf.
    apply Forall_app in Hf as [Hf _].
    unfold listByType. rewrite Hrun. now apply grouped_empty_row.
  - intros d depth Hrun.
    pose proof (Run_rows_fields _ _ _ _ _ Hrun) as Hf.
    apply Forall_app in Hf as [Hf _].
    unfold Children. rewrite Hrun.
    now rewrite (grouped_empty_row GOOS DsPropList Hcols pre post Hf Hl).
Qed.

Lemma listing_blank_row_panics_witness :
  let P := ["name"; "origin"; "used"; "available"; "mountpoint";
            "compression"; "type"; "volsize"; "quota"] in
  let r1 := ["tank"; "-"; "1K"; "2G"; "/tank"; "lz4"; "filesystem"; "-"; "-"] in
  listByType "solaris" P "all" "" (-1) true
    (mkExecution None None (render [r1; []; r1]) "") = Panic.
Proof.
  intros P r1.
  apply (proj1 (listing_blank_row_panics "solaris" P
                  (mkExecution None None (render [r1; []; r1]) "")
                  [r1] [r1] ltac:(vm_compute; lia)
                  ltac:(repeat constructor))).
  vm_compute. reflexivity.
Defined.

(** X15. [Children] drops the first dataset of the listing, the dataset
    itself: when every row has the platform's number of fields, the
    result is the datasets of all the runs but the first; when the
    command prints no row at all, the slice of an empty list panics. *)
Theorem Children_drops_first (GOOS : string) (DsPropList : list string)
    (d : Dataset) (depth : N) (x : Execution) (out : list (list string)) :
  columnsRead GOOS <= length DsPropList ->
  Run "zfs" false (Children_args DsPropList d depth) x = Ok out ->
  Forall (fun row => length row = length DsPropList) out ->
  (out = [] -> Children GOOS DsPropList d depth x = Panic)
  /\ (forall first rest,
        lastOfRuns out = first :: rest ->
        Children GOOS DsPropList d depth x = Ok (datasetOf GOOS <$> rest)).
Proof.
  intros Hcols Hrun Hl. pose proof (Run_rows_fields _ _ _ _ _ Hrun) as Hf.
  unfold Children. rewrite Hrun.
  rewrite (grouped_listing GOOS DsPropList Hcols out Hf Hl). split.
  - intros ->. reflexivity.
  - intros first rest ->. reflexivity.
Qed.

Lemma Children_drops_first_witness :
  let P := ["name"; "origin"; "used"; "available"; "mountpoint";
            "compression"; "type"; "volsize"; "quota"] in
  let r1 := ["tank"; "-"; "1K"; "2G"; "/tank"; "lz4"; "filesystem"; "-"; "-"] in
  let r2 := ["tank/a"; "-"; "1K"; "1G"; "/a"; "off"; "filesystem"; "-"; "-"] in
  let d := newDataset "tank" in
  Children "solaris" P d 0 (mkExecution None None (render [r1; r2]) "")
  = Ok [datasetOf "solaris" r2]
  /\ Children "solaris" P d 0 (mkExecution None None "" "") = Panic.
Proof.
  intros P r1 r2 d. split.
  - apply (proj2 (Children_drops_first "solaris" P d 0
                    (mkExecution None None (render [r1; r2]) "") [r1; r2]
                    ltac:(vm_compute; lia) ltac:(vm_compute; reflexivity)
                    ltac:(repeat constructor)) r1 [r2]).
    reflexivity.
  - apply (proj1 (Children_drops_first "solaris" P d 0
                    (mkExecution None None "" "") []
                    ltac:(vm_compute; lia) ltac:(vm_compute; reflexivity)
                    ltac:(constructor))).
    reflexivity.
Defined.

(** X16. [GetDataset] maps every row onto one record, so the last row
    decides: when the rows all have the platform's number of fields the
    result is the record of the last row, and for no row at all it is a
    dataset that has the requested name and nothing else.  A row with
    another number of fields makes it fail with the mismatch error. *)
Theorem GetDataset_last_row (GOOS : string) (DsPropList : list string)
    (name : string) (x : Execution) (out : list (list string)) :
  columnsRead GOOS <= length DsPropList ->
  Run "zfs" false ["list"; "-Hp"; "-o"; String.concat "," DsPropList; name] x
  = Ok out ->
  (Forall (fun row => length row = length DsPropList) out ->
   GetDataset GOOS DsPropList name x
   = Ok (match list.last out with
         | Some row => datasetOf GOOS row
         | None => newDataset name
         end))
  /\ (forall pre bad post,
        out = (pre ++ bad :: post)%list ->
        Forall (fun row => length row = length DsPropList) pre ->
        length bad <> length DsPropList ->
        GetDataset GOOS DsPropList name x
        = Err (OutputRejected datasetMismatch)).
Proof.
  intros Hcols Hrun. unfold GetDataset. rewrite Hrun. split.
  - intros Hl. rewrite (parseLines_mapped GOOS DsPropList Hcols out _ Hl).
    destruct (list.last out); [now rewrite mapped_newDataset | reflexivity].
  - intros pre bad post -> Hl Hlen.
    pose proof (parseLines_bad_row GOOS DsPropList Hcols pre post bad
                  (newDataset name) Hl Hlen) as Hsnd.
    destruct (parseLines _ _ _ _) as [ds r]. simpl in Hsnd. now subst r.
Qed.

Lemma GetDataset_last_row_witness :
  let P := ["name"; "origin"; "used"; "available"; "mountpoint";
            "compression"; "type"; "volsize"; "quota"] in
  let r1 := ["tank"; "-"; "1K"; "2G"; "/tank"; "lz4"; "filesystem"; "-"; "-"] in
  GetDataset "solaris" P "tank" (mkExecution None None (render [r1]) "")
  = Ok (datasetOf "solaris" r1)
  /\ GetDataset "solaris" P "tank" (mkExecution None None "" "")
     = Ok (newDataset "tank")
  /\ GetDataset "solaris" P "tank"
       (mkExecution None None (render [["tank"]]) "")
     = Err (OutputRejected datasetMismatch).
Proof.
  intros P r1. split; [|split].
  - apply (proj1 (GetDataset_last_row "solaris" P "tank"
                    (mkExecution None None (render [r1]) "") [r1]
                    ltac:(vm_compute; lia) ltac:(vm_compute; reflexivity))).
    repeat constructor.
  - apply (proj1 (GetDataset_last_row "solaris" P "tank"
                    (mkExecution None None "" "") []
                    ltac:(vm_compute; lia) ltac:(vm_compute; reflexivity))).
    constructor.
  - apply (proj2 (GetDataset_last_row "solaris" P "tank"
                    (mkExecution None None (render [["tank"]]) "") [["tank"]]
                    ltac:(vm_compute; lia) ltac:(vm_compute; reflexivity))
             [] ["tank"] []);
      [reflexivity | constructor | simpl; lia].
Defined.

(** ** Single values *)

(** X17. [GetProperty] returns the third field of the first line the
    command prints, and panics when there is none: when the command
    succeeds and its output holds no line break the index of the first
    row is out of range; when the output starts with a line of fields
    separated by tabs, the result is the third of them, and a panic if
    the line has fewer than three. *)
Theorem GetProperty_third_field (d : Dataset) (key : string) (x : Execution) :
  start_err x = None -> wait_err x = None ->
  (countByte newline (stdout x) = 0 -> GetProperty d key x = Panic)
  /\ (forall row tail,
        Forall isPlainField row ->
        stdout x = renderRow row ++ String newline tail ->
        GetProperty d key x
        = match row !! 2 with
          | Some v => Ok v
          | None => Panic
          end).
Proof.
  intros Hs Hw. unfold GetProperty.
  rewrite (Run_succeeded _ _ _ _ Hs Hw), tokenize_eq. split.
  - intros Hn. unfold Split. rewrite (Split_from_no_sep _ _ "" Hn).
    reflexivity.
  - intros row tail Hrow ->. unfold Split.
    rewrite (Split_from_line newline _ tail "" (renderRow_no_newline row Hrow)).
    rewrite string_app_nil_l. simpl length.
    pose proof (Split_from_length newline tail "") as Hlen.
    destruct (length (Split_from newline "" tail)) as [|n] eqn:Hn; [lia|].
    simpl. rewrite (Fields_renderRow row Hrow). reflexivity.
Qed.

Lemma GetProperty_third_field_witness :
  GetProperty (newDataset "tank") "used" (mkExecution None None "" "") = Panic
  /\ GetProperty (newDataset "tank") "used"
       (mkExecution None None
          (renderRow ["tank"; "used"; "1024"; "-"] ++ String newline "") "")
     = Ok "1024".
Proof.
  split.
  - apply (proj1 (GetProperty_third_field (newDataset "tank") "used"
                    (mkExecution None None "" "") eq_refl eq_refl)).
    reflexivity.
  - apply (proj2 (GetProperty_third_field (newDataset "tank") "used"
                    (mkExecution None None
                       (renderRow ["tank"; "used"; "1024"; "-"]
                        ++ String newline "") "") eq_refl eq_refl)
             ["tank"; "used"; "1024"; "-"] "");
      [repeat constructor; discriminate | reflexivity].
Defined.

(** ** Flags *)

Lemma hasFlag_lor (f g bit : Z) :
  hasFlag (Z.lor f g) bit = hasFlag f bit || hasFlag g bit.
Proof.
  unfold hasFlag. rewrite Z.land_lor_distr_l, <- negb_andb. f_equal.
  destruct (Z.eqb_spec (Z.land f bit) 0) as [Hf|Hf];
    destruct (Z.eqb_spec (Z.land g bit) 0) as [Hg|Hg]; simpl;
    apply Z.eqb_eq || apply Z.eqb_neq; rewrite Z.lor_eq_0_iff; tauto.
Qed.

Lemma Destroy_args_tokens (d : Dataset) (flags : Z) :
  Destroy_args d flags
  = ("destroy" :: flagTokens destroyTable flags ++ [d Name])%list.
Proof.
  unfold Destroy_args, flagTokens, destroyTable, appendIf.
  cbn [filter list_filter fst snd].
  repeat (destruct (hasFlag flags _));
    repeat (rewrite decide_True by reflexivity
            || rewrite decide_False by discriminate);
    reflexivity.
Qed.

(** X18. The options of [Destroy] follow the bits of the flag word, in a
    fixed order: the arguments are [destroy], then those of [-r], [-R],
    [-d], [-f] whose bit is set, in this order, then the dataset name;
    the default flag sets none of them, and the options of two flag words
    or-ed together are exactly the options of either. *)
Theorem Destroy_flags_compose (d : Dataset) (f g : Z) :
  Destroy_args d f
  = ("destroy" :: flagTokens destroyTable f ++ [d Name])%list
  /\ flagTokens destroyTable f `sublist_of` ["-r"; "-R"; "-d"; "-f"]
  /\ Destroy_args d DestroyDefault = ["destroy"; d Name]
  /\ (forall tok, tok ∈ flagTokens destroyTable (Z.lor f g) <->
        tok ∈ flagTokens destroyTable f \/ tok ∈ flagTokens destroyTable g).
Proof.
  split; [apply Destroy_args_tokens|]. split; [|split].
  - unfold flagTokens.
    change ["-r"; "-R"; "-d"; "-f"] with (snd <$> destroyTable).
    apply fmap_sublist, sublist_filter.
  - reflexivity.
  - intros tok. unfold flagTokens.
    rewrite !list_elem_of_fmap. setoid_rewrite list_elem_of_filter.
    split.
    + intros (p & -> & Hp & Hin). rewrite hasFlag_lor in Hp.
      apply orb_prop in Hp as [Hp|Hp]; [left | right]; eauto.
    + intros [(p & -> & Hp & Hin)|(p & -> & Hp & Hin)];
        exists p; rewrite hasFlag_lor, Hp; auto using orb_true_r.
Qed.

Lemma SendSnapshot_args_eq (ds0 ds1 : string) (sendflags : Z)
    (compress : string) :
  SendSnapshot_args ds0 ds1 sendflags compress
  = if negb (hasFlag sendflags SendWithToken) && negb (contains_byte "@" ds0)
    then Err (Refused "can only send snapshots")
    else if hasFlag sendflags SendIncremental && bool_decide (ds1 = "")
    then Err (Refused "Source snapshot must be set for incremental send")
    else Ok ("send" :: flagTokens sendTable sendflags
               ++ incrementalArgs sendflags ds1 ++ [ds0]
               ++ pipeArgs compress)%list.
Proof.
  unfold SendSnapshot_args.
  assert (Htok : (Z.land sendflags SendWithToken =? 0)%Z
                 = negb (hasFlag sendflags SendWithToken))
    by (unfold hasFlag; now rewrite negb_involutive).
  rewrite Htok. clear Htok.
  unfold flagTokens, sendTable, incrementalArgs, pipeArgs, appendIf.
  cbn [filter list_filter fst snd].
  destruct (hasFlag sendflags SendWithToken);
    destruct (contains_byte "@" ds0); simpl negb; simpl andb; cbv iota;
    try reflexivity;
    destruct (hasFlag sendflags SendIncremental);
    destruct (bool_decide (ds1 = "")); simpl andb; cbv iota;
    try reflexivity;
    destruct (hasFlag sendflags SendRecursive);
    destruct (hasFlag sendflags SendLz4);
    destruct (hasFlag sendflags SendEmbeddedData);
    destruct (hasFlag sendflags SendIntermediate);
    destruct (bool_decide (compress <> ""));
    repeat (rewrite decide_True by reflexivity
            || rewrite decide_False by discriminate);
    reflexivity.
Qed.

(** X19. [SendSnapshot] checks its arguments before it runs anything: it
    refuses with "can only send snapshots" exactly when the token flag is
    clear and the source holds no [@]; past that check it refuses an
    incremental send exactly when the previous snapshot is empty; and
    when it accepts, the arguments are [send], the options of the set
    flags among [-R], [-c], [-t], [-e] in this order, the previous
    snapshot after [-I] if the incremental and intermediate flags are
    both set or after [-i] if only the incremental flag is, the source,
    and the pipe to the compression program if there is one. *)
Theorem SendSnapshot_checks (ds0 ds1 : string) (sendflags : Z)
    (compress : string) :
  (SendSnapshot_args ds0 ds1 sendflags compress
   = Err (Refused "can only send snapshots")
   <-> hasFlag sendflags SendWithToken = false
       /\ contains_byte "@" ds0 = false)
  /\ (SendSnapshot_args ds0 ds1 sendflags compress
      = Err (Refused "Source snapshot must be set for incremental send")
      <-> (hasFlag sendflags SendWithToken = true
           \/ contains_byte "@" ds0 = true)
          /\ hasFlag sendflags SendIncremental = true /\ ds1 = "")
  /\ (forall args,
        SendSnapshot_args ds0 ds1 sendflags compress = Ok args ->
        args = ("send" :: flagTokens sendTable sendflags
                  ++ incrementalArgs sendflags ds1 ++ [ds0]
                  ++ pipeArgs compress)%list
        /\ flagTokens sendTable sendflags
           `sublist_of` ["-R"; "-c"; "-t"; "-e"])
  /\ (hasFlag sendflags SendIncremental = false ->
      incrementalArgs sendflags ds1 = []).
Proof.
  split; [|split; [|split]].
  - rewrite SendSnapshot_args_eq.
    destruct (hasFlag sendflags SendWithToken);
      destruct (contains_byte "@" ds0); simpl negb; simpl andb; cbv iota;
      try (split; [|intros [? ?]; discriminate];
           destruct (_ && _); discriminate).
    split; auto.
  - rewrite SendSnapshot_args_eq.
    destruct (hasFlag sendflags SendWithToken);
      destruct (contains_byte "@" ds0); simpl negb; simpl andb; cbv iota;
      try (split; [discriminate | intros [[?|?] _]; discriminate]);
      destruct (hasFlag sendflags SendIncremental);
      case_bool_decide as Hd; simpl andb; cbv iota;
      (split; [intros H; try discriminate H; auto
              | intros (_ & Hi & He); try discriminate Hi; try congruence]).
  - intros args Hargs. rewrite SendSnapshot_args_eq in Hargs.
    destruct (_ && _); [discriminate|].
    destruct (_ && _); [discriminate|].
    injection Hargs as <-. split; [reflexivity|].
    unfold flagTokens.
    change ["-R"; "-c"; "-t"; "-e"] with (snd <$> sendTable).
    apply fmap_sublist, sublist_filter.
  - unfold incrementalArgs. intros ->. reflexivity.
Qed.

Lemma SendSnapshot_checks_witness :
  SendSnapshot_args "tank/fs" "" SendDefault ""
  = Err (Refused "can only send snapshots")
  /\ SendSnapshot_args "tank/fs@b" "" SendIncremental ""
     = Err (Refused "Source snapshot must be set for incremental send")
  /\ SendSnapshot_args "tank/fs@b" "tank/fs@a" SendIntermediate "lzop"
     = Ok ["send"; "tank/fs@b"; "|"; "lzop"].
Proof.
  split; [|split].
  - apply (proj1 (SendSnapshot_checks "tank/fs" "" SendDefault "")).
    split; reflexivity.
  - apply (proj1 (proj2 (SendSnapshot_checks "tank/fs@b" "" SendIncremental
                           ""))).
    split; [right; reflexivity | split; reflexivity].
  - destruct (SendSnapshot_args "tank/fs@b" "tank/fs@a" SendIntermediate
                "lzop") as [args| |] eqn:Hargs;
      [|vm_compute in Hargs; discriminate..].
    destruct (proj1 (proj2 (proj2 (SendSnapshot_checks "tank/fs@b"
                "tank/fs@a" SendIntermediate "lzop"))) args Hargs)
      as [-> _].
    reflexivity.
Defined.

(** X20. On a local handle a pipe is interpreted only when it stands in
    the command: [ReceiveSnapshot] with a decompression program runs one
    line through [sh -c], made of the program, a pipe sign, [zfs] and the
    arguments separated by spaces, whereas [SendSnapshot] with a
    compression program runs [zfs] directly, the pipe sign and the
    program being passed to it as two ordinary arguments at the end. *)
Theorem LocalPrepare_pipes (name uncompress : string) (props : list string)
    (ds0 ds1 : string) (sendflags : Z) (compress : string)
    (args : list string) :
  uncompress <> "" -> compress <> "" ->
  SendSnapshot_args ds0 ds1 sendflags compress = Ok args ->
  argv (LocalPrepare (ReceiveSnapshot_command uncompress) true false false
          (ReceiveSnapshot_args name props))
  = ["sh"; "-c";
     uncompress ++ "|zfs " ++
       String.concat " " (ReceiveSnapshot_args name props)]
  /\ argv (LocalPrepare "zfs" false true false args) = "zfs" :: args
  /\ exists front, args = (front ++ ["|"; compress])%list.
Proof.
  intros Hu Hc Hargs. split; [|split].
  - unfold LocalPrepare, argv, ReceiveSnapshot_command.
    rewrite (bool_decide_eq_true_2 _ Hu).
    assert (Hpipe : contains_byte "|" (uncompress ++ "|zfs") = true).
    { clear. induction uncompress as [|c u IH]; [reflexivity|].
      rewrite string_app_cons. simpl. rewrite IH. apply orb_true_r. }
    rewrite Hpipe. now rewrite string_app_assoc.
  - reflexivity.
  - rewrite SendSnapshot_args_eq in Hargs.
    destruct (_ && _); [discriminate|].
    destruct (_ && _); [discriminate|].
    injection Hargs as <-. unfold pipeArgs.
    rewrite (bool_decide_eq_true_2 _ Hc).
    eexists ("send" :: flagTokens sendTable sendflags
               ++ incrementalArgs sendflags ds1 ++ [ds0])%list.
    rewrite <- app_comm_cons. f_equal. now rewrite <- !app_assoc.
Qed.

Lemma LocalPrepare_pipes_witness :
  argv (LocalPrepare (ReceiveSnapshot_command "lzop -d") true false false
          (ReceiveSnapshot_args "tank/copy" ["compression=lz4"; "bogus"]))
  = ["sh"; "-c"; "lzop -d|zfs receive -o compression=lz4 -s tank/copy"]
  /\ argv (LocalPrepare "zfs" false true false
             ["send"; "tank/fs@b"; "|"; "lzop"])
     = ["zfs"; "send"; "tank/fs@b"; "|"; "lzop"].
Proof.
  destruct (LocalPrepare_pipes "tank/copy" "lzop -d"
              ["compression=lz4"; "bogus"] "tank/fs@b" "" SendDefault "lzop"
              ["send"; "tank/fs@b"; "|"; "lzop"]
              ltac:(discriminate) ltac:(discriminate)
              ltac:(vm_compute; reflexivity)) as (H1 & H2 & _).
  split; [exact H1 | exact H2].
Defined.

(** ** Pools *)

Section PoolProps.

Variable ZpoolPropList : list string.
Hypothesis Hcols : 5 <= length ZpoolPropList.

Local Open Scope list_scope.

Lemma Zpool_parseLine_eq (line : list string) (z : Zpool) :
  length line = length ZpoolPropList ->
  Zpool_parseLine ZpoolPropList line z = (zpoolOf line, Ok tt).
Proof.
  intros Heq. unfold Zpool_parseLine.
  rewrite bool_decide_eq_false_2 by (intros Hne; apply Hne; exact Heq).
  rewrite <- Heq in Hcols.
  destruct line as [|x0 [|x1 [|x2 [|x3 [|x4 rest]]]]]; simpl in Hcols; try lia.
  unfold setAt, bind, at_, index. simpl lookup. cbv beta iota.
  repeat (rewrite setString_sentinel; cbv beta iota).
  f_equal. apply functional_extensionality. intros field.
  destruct field; reflexivity.
Qed.

Lemma Zpool_parseLine_mismatch (line : list string) (z : Zpool) :
  length line <> length ZpoolPropList ->
  Zpool_parseLine ZpoolPropList line z = (z, Err zpoolMismatch).
Proof.
  intros Hne. unfold Zpool_parseLine.
  now rewrite bool_decide_eq_true_2 by exact Hne.
Qed.

Lemma Zpool_parseLines_last (out : list (list string)) : forall z : Zpool,
  Forall (fun row => length row = length ZpoolPropList) out ->
  Zpool_parseLines ZpoolPropList out z
  = (match list.last out with
     | Some row => zpoolOf row
     | None => z
     end, Ok tt).
Proof.
  induction out as [|row out IH]; intros z Hl; [reflexivity|].
  inversion_clear Hl as [|? ? Hrow Hout].
  cbn [Zpool_parseLines]. rewrite (Zpool_parseLine_eq row z Hrow).
  rewrite (IH _ Hout). destruct out as [|row' out]; [reflexivity|].
  rewrite last_cons_cons.
  destruct (list.last (row' :: out)) as [r|] eqn:Hlast; [reflexivity|].
  now apply last_None in Hlast.
Qed.

Lemma Zpool_parseLines_bad_row (pre post : list (list string))
    (bad : list string) : forall z : Zpool,
  Forall (fun row => length row = length ZpoolPropList) pre ->
  length bad <> length ZpoolPropList ->
  snd (Zpool_parseLines ZpoolPropList (pre ++ bad :: post) z)
  = Err zpoolMismatch.
Proof.
  induction pre as [|row pre IH]; intros z Hpre Hlen.
  - cbn [app Zpool_parseLines]. now rewrite (Zpool_parseLine_mismatch _ _ Hlen).
  - inversion_clear Hpre as [|? ? Hrow Hpre'].
    rewrite <- app_comm_cons. cbn [Zpool_parseLines].
    rewrite (Zpool_parseLine_eq row z Hrow). now apply IH.
Qed.

End PoolProps.

(** X21. [GetZpool] never looks at the first row, the header: whatever it
    holds, the pool is the record of the last of the rows after it when
    these all have as many fields as the pool has columns, and a pool
    with the requested name only when there is none; a later row with
    another number of fields makes it fail with the mismatch error, and
    output with no row at all makes it panic. *)
Theorem GetZpool_skips_header (ZpoolPropList : list string) (name : string)
    (x : Execution) (out : list (list string)) :
  5 <= length ZpoolPropList ->
  Run "zpool" false ["list"; "-o"; String.concat "," ZpoolPropList; name] x
  = Ok out ->
  (out = [] -> GetZpool ZpoolPropList name x = Panic)
  /\ (forall header rows,
        out = header :: rows ->
        Forall (fun row => length row = length ZpoolPropList) rows ->
        GetZpool ZpoolPropList name x
        = Ok (match list.last rows with
              | Some row => zpoolOf row
              | None => newZpool name
              end))
  /\ (forall header pre bad post,
        out = header :: (pre ++ bad :: post)%list ->
        Forall (fun row => length row = length ZpoolPropList) pre ->
        length bad <> length ZpoolPropList ->
        GetZpool ZpoolPropList name x
        = Err (OutputRejected zpoolMismatch)).
Proof.
  intros Hcols Hrun. unfold GetZpool. rewrite Hrun. split; [|split].
  - intros ->. reflexivity.
  - intros header rows -> Hl.
    now rewrite (Zpool_parseLines_last ZpoolPropList Hcols rows _ Hl).
  - intros header pre bad post -> Hl Hlen.
    pose proof (Zpool_parseLines_bad_row ZpoolPropList Hcols pre post bad
                  (newZpool name) Hl Hlen) as Hsnd.
    destruct (Zpool_parseLines _ _ _) as [zp r]. simpl in Hsnd. now subst r.
Qed.

Lemma GetZpool_skips_header_witness :
  let P := ["name"; "health"; "allocated"; "size"; "free"] in
  let row := ["tank"; "ONLINE"; "1G"; "10G"; "-"] in
  GetZpool P "tank"
    (mkExecution None None (render [["NAME"; "HEALTH"]; row]) "")
  = Ok (zpoolOf row)
  /\ GetZpool P "tank" (mkExecution None None "" "") = Panic
  /\ GetZpool P "tank"
       (mkExecution None None (render [P; ["tank"; "ONLINE"]]) "")
     = Err (OutputRejected zpoolMismatch).
Proof.
  intros P row. split; [|split].
  - apply (proj1 (proj2 (GetZpool_skips_header P "tank"
             (mkExecution None None (render [["NAME"; "HEALTH"]; row]) "")
             [["NAME"; "HEALTH"]; row]
             ltac:(vm_compute; lia) ltac:(vm_compute; reflexivity)))
             ["NAME"; "HEALTH"] [row]);
      [reflexivity | repeat constructor].
  - apply (proj1 (GetZpool_skips_header P "tank"
             (mkExecution None None "" "") []
             ltac:(vm_compute; lia) ltac:(vm_compute; reflexivity))).
    reflexivity.
  - apply (proj2 (proj2 (GetZpool_skips_header P "tank"
             (mkExecution None None (render [P; ["tank"; "ONLINE"]]) "")
             [P; ["tank"; "ONLINE"]]
             ltac:(vm_compute; lia) ltac:(vm_compute; reflexivity)))
             P [] ["tank"; "ONLINE"] []);
      [reflexivity | constructor | simpl; lia].
Defined.

(** ** Diff, end to end *)

Lemma octal4_plain (c : ascii) : all_bytes isFieldByte (octal4 c) = true.
Proof. destruct c as [[] [] [] [] [] [] [] []]; vm_compute; reflexivity. Qed.

Lemma escapePath_bytes (path : string) :
  all_bytes isFieldByte (escapePath path) = true.
Proof.
  unfold escapePath. induction path as [|c path IH]; [reflexivity|].
  cbn [escapeWith]. rewrite all_bytes_app, IH, andb_true_r.
  destruct (diffEscaped c) eqn:Hc.
  - cbn [all_bytes]. now rewrite octal4_plain.
  - unfold diffEscaped in Hc. apply orb_false_elim in Hc as [Hc _].
    apply negb_false_iff in Hc. simpl. now rewrite Hc.
Qed.

Lemma escapePath_plain (path : string) :
  path <> "" -> isPlainField (escapePath path).
Proof.
  intros Hne. split; [|apply escapePath_bytes].
  destruct path as [|c path]; [congruence|].
  unfold escapePath. cbn [escapeWith]. destruct (diffEscaped c); discriminate.
Qed.

Lemma unescape_escapePath (path : string) :
  unescapeFilepath (escapePath path) = Ok path.
Proof. apply unescape_of_escapeWith. reflexivity. Qed.

Lemma changeCode_known (ct : ChangeType) :
  ct <> UnknownChange ->
  changeTypeMap !! changeCode ct = Some ct /\ isPlainField (changeCode ct).
Proof.
  destruct ct; intros H; try congruence;
    (split; [vm_compute; reflexivity | split; [discriminate | reflexivity]]).
Qed.

Lemma inodeCode_known (ty : InodeType) :
  ty <> UnknownInode ->
  inodeTypeMap !! inodeCode ty = Some ty /\ isPlainField (inodeCode ty).
Proof.
  destruct ty; intros H; try congruence;
    (split; [vm_compute; reflexivity | split; [discriminate | reflexivity]]).
Qed.

Lemma diffRow_plain (c : InodeChange) :
  isPrintedChange c -> Forall isPlainField (diffRow c).
Proof.
  intros (Hct & Hty & Hp & _ & Hnp). unfold diffRow.
  apply Forall_app. split.
  - constructor; [now apply changeCode_known|].
    constructor; [now apply inodeCode_known|].
    constructor; [now apply escapePath_plain | constructor].
  - case_bool_decide; [|constructor].
    constructor; [now apply escapePath_plain | constructor].
Qed.

Lemma parseInodeChange_diffRow (w : strconv.WordSize) (c : InodeChange) :
  isPrintedChange c -> parseInodeChange w (diffRow c) = Ok c.
Proof.
  destruct c as [ct ty path newPath rc].
  intros (Hct & Hty & Hp & Hrc & Hnp). simpl in *. subst rc.
  destruct (changeCode_known ct Hct) as [Hc _].
  destruct (inodeCode_known ty Hty) as [Hi _].
  unfold diffRow. simpl.
  destruct (decide (ct = Renamed)) as [->|Hren].
  - rewrite bool_decide_eq_true_2 by reflexivity. simpl app.
    rewrite (parseInodeChange_fields w _ _ _ [_] _ _ Hc eq_refl Hi).
    rewrite unescape_escapePath. simpl. unfold index. simpl.
    now rewrite unescape_escapePath.
  - rewrite bool_decide_eq_false_2 in Hnp |- * by exact Hren. subst newPath.
    simpl app.
    rewrite (parseInodeChange_fields w _ _ _ [] _ _ Hc
               ltac:(destruct ct; simpl; auto; congruence) Hi).
    rewrite unescape_escapePath.
    destruct ct; try congruence; reflexivity.
Qed.

Lemma parseRows_diffRows (w : strconv.WordSize) (cs : list InodeChange) :
  Forall isPrintedChange cs -> parseRows w (diffRow <$> cs) = Ok cs.
Proof.
  induction 1 as [|c cs Hc Hcs IH]; [reflexivity|].
  rewrite fmap_cons. cbn [parseRows].
  now rewrite (parseInodeChange_diffRow w c Hc), IH.
Qed.

(** X22. A diff is read back end to end: for changes with a known change
    and inode type, a non-empty path of any bytes whatever, a non-empty
    new path exactly for the renames and no reference count, when the
    command prints one line per change, made of the two codes and the
    path (and the new path of a rename) separated by tabs, every byte of
    a path other than a printable non-space, non-backslash ASCII byte
    being escaped in octal, [Diff] returns exactly these changes, in
    order. *)
Theorem Diff_round_trip (w : strconv.WordSize) (d : Dataset)
    (snapshot : string) (x : Execution) (cs : list InodeChange) :
  start_err x = None -> wait_err x = None ->
  Forall isPrintedChange cs ->
  stdout x = render (diffRow <$> cs) ->
  Diff w d snapshot x = Ok (Some <$> cs).
Proof.
  intros Hs Hw Hcs Hout. unfold Diff.
  rewrite (Run_succeeded _ _ _ _ Hs Hw), Hout.
  rewrite tokenize_of_render.
  - rewrite parseInodeChanges_parseRows, (parseRows_diffRows w cs Hcs).
    reflexivity.
  - apply Forall_fmap. clear Hout.
    induction Hcs as [|c cs Hc Hcs' IH]; [constructor|].
    constructor; [exact (diffRow_plain c Hc) | exact IH].
Qed.

Lemma Diff_round_trip_witness :
  let cs := [mkInodeChange Created File "/tank/i \ x" "" 0;
             mkInodeChange Renamed Directory "/tank/a" "/tank/b c" 0] in
  render (diffRow <$> cs)
  = "+" ++ String tab ("F" ++ String tab ("/tank/i\0040\0134\0040x"
        ++ String newline
       ("R" ++ String tab ("/" ++ String tab ("/tank/a" ++ String tab
          ("/tank/b\0040c" ++ String newline ""))))))
  /\ Diff strconv.W64 (newDataset "tank") "tank@s"
       (mkExecution None None (render (diffRow <$> cs)) "")
     = Ok (Some <$> cs).
Proof.
  intros cs. split; [vm_compute; reflexivity|].
  apply Diff_round_trip; [reflexivity | reflexivity | | reflexivity].
  repeat constructor; discriminate.
Defined.
